(** * Flashcard generator: prompt builder, response parser, CSV export

    A shallow embedding of [src/index.tsx].  JavaScript strings are
    sequences of UTF-16 code units; the DOM elements the handlers touch
    are the fields of a [page] record that the handlers pass along; code
    that may throw returns a [result]. *)

From Stdlib Require Import List Arith NArith Bool String Ascii.
Import ListNotations.

Set Implicit Arguments.

(** ** JavaScript strings *)

Definition code_unit := N.
Definition jsstring := list code_unit.

(** An ASCII literal of the source as a JavaScript string. *)
Fixpoint js (s : string) : jsstring :=
  match s with
  | EmptyString => []
  | String a s' => N_of_ascii a :: js s'
  end.

Definition nl : code_unit := 10%N.      (* line feed *)
Definition dquote : code_unit := 34%N.  (* double quote *)
Definition comma : code_unit := 44%N.
Definition colon : code_unit := 58%N.

Definition jsstring_eq_dec : forall a b : jsstring, {a = b} + {a <> b} :=
  list_eq_dec N.eq_dec.

(** Truthiness of a string value: every string but the empty one. *)
Definition truthy (s : jsstring) : bool :=
  match s with
  | [] => false
  | _ :: _ => true
  end.

(** The code units [String.prototype.trim] strips: ECMAScript's WhiteSpace
    (TAB, VT, FF, SP, NBSP, ZWNBSP and the Unicode space separators) and
    LineTerminator (LF, CR, LS, PS). *)
Definition is_white_space (c : code_unit) : bool :=
  ((9 <=? c) && (c <=? 13) || (c =? 32) || (c =? 160) || (c =? 5760)
   || (8192 <=? c) && (c <=? 8202) || (c =? 8232) || (c =? 8233)
   || (c =? 8239) || (c =? 8287) || (c =? 12288) || (c =? 65279))%N.

Fixpoint trimStart (s : jsstring) : jsstring :=
  match s with
  | [] => []
  | c :: s' => if is_white_space c then trimStart s' else s
  end.

Definition trimEnd (s : jsstring) : jsstring := rev (trimStart (rev s)).

Definition trim (s : jsstring) : jsstring := trimEnd (trimStart s).

(** [s.startsWith(p)] *)
Fixpoint startsWith (p s : jsstring) : bool :=
  match p, s with
  | [], _ => true
  | _ :: _, [] => false
  | a :: p', b :: s' => (a =? b)%N && startsWith p' s'
  end.

(** [s.split(sep)] for a separator of one code unit, which is what both
    call sites pass.  The result is never empty: a string without the
    separator is its own single part. *)
Fixpoint split (sep : code_unit) (s : jsstring) : list jsstring :=
  match s with
  | [] => [[]]
  | c :: s' =>
      if (c =? sep)%N then [] :: split sep s'
      else match split sep s' with
           | p :: ps => (c :: p) :: ps
           | [] => [[c]]
           end
  end.

(** [parts.join(sep)] *)
Fixpoint join (sep : jsstring) (parts : list jsstring) : jsstring :=
  match parts with
  | [] => []
  | p :: ps =>
      match ps with
      | [] => p
      | _ :: _ => p ++ sep ++ join sep ps
      end
  end.

(** [parts.slice(start)] *)
Definition slice (A : Type) (start : nat) (parts : list A) : list A :=
  skipn start parts.

(** ** Exceptions *)

Inductive exn : Type :=
| TypeError (message : jsstring)
| ApiError (message : option jsstring).

Inductive result (A : Type) : Type :=
| Ok (a : A)
| Throw (e : exn).

Arguments Ok {A} a.
Arguments Throw {A} e.

Definition bind (A B : Type) (r : result A) (k : A -> result B) : result B :=
  match r with
  | Ok a => k a
  | Throw e => Throw e
  end.

Notation "x <- r ;; k" := (bind r (fun x => k))
  (at level 61, r at next level, right associativity).

Fixpoint mapM (A B : Type) (f : A -> result B) (l : list A) : result (list B) :=
  match l with
  | [] => Ok []
  | a :: l' => b <- f a ;; bs <- mapM f l' ;; Ok (b :: bs)
  end.

(** [v.trim()] where [v] is an array element that may be [undefined]. *)
Definition method_trim (v : option jsstring) : result jsstring :=
  match v with
  | Some s => Ok (trim s)
  | None =>
      Throw (TypeError (js "Cannot read properties of undefined (reading 'trim')"))
  end.

(** ** Data model *)

Record Flashcard : Type := { term : jsstring; definition : jsstring }.

(** ** Response parser (the inline parser of the generate handler) *)

(** The callback given to [.map]: a flashcard, or [null]. *)
Definition parseLine (line : jsstring) : result (option Flashcard) :=
  let parts := split colon line in
  ok <- (if (2 <=? List.length parts)%nat
         then t <- method_trim (nth_error parts 0) ;; Ok (truthy t)
         else Ok false) ;;
  if ok : bool then
    term <- method_trim (nth_error parts 0) ;;
    let definition := trim (join [colon] (slice 1 parts)) in
    if truthy definition
    then Ok (Some {| term := term; definition := definition |})
    else Ok None
  else Ok None.

(** [.filter(card => card !== null)] *)
Fixpoint filter_non_null (A : Type) (l : list (option A)) : list A :=
  match l with
  | [] => []
  | Some a :: l' => a :: filter_non_null l'
  | None :: l' => filter_non_null l'
  end.

Definition parseFlashcards (responseText : jsstring) : result (list Flashcard) :=
  cards <- mapM parseLine (split nl responseText) ;;
  Ok (filter_non_null cards).

(** ** CSV export *)

(** The regular expression test of [escapeCsvField]: some code unit of the
    field is a double quote, a comma or a line feed. *)
Definition test_quote_comma_newline (field : jsstring) : bool :=
  existsb (fun c => (c =? dquote) || (c =? comma) || (c =? nl))%N field.

(** The global replacement of [escapeCsvField]: every double quote becomes
    two. *)
Fixpoint replace_dquotes (field : jsstring) : jsstring :=
  match field with
  | [] => []
  | c :: field' =>
      if (c =? dquote)%N then dquote :: dquote :: replace_dquotes field'
      else c :: replace_dquotes field'
  end.

Definition escapeCsvField (field : jsstring) : jsstring :=
  if test_quote_comma_newline field
  then [dquote] ++ replace_dquotes field ++ [dquote]
  else field.

Definition csvHeader : jsstring := js "Term,Definition" ++ [nl].

(** The callback given to [currentFlashcards.map]. *)
Definition csvRow (card : Flashcard) : jsstring :=
  let term := escapeCsvField (term card) in
  let definition := escapeCsvField (definition card) in
  term ++ [comma] ++ definition.

Definition csvRows (cards : list Flashcard) : jsstring :=
  join [nl] (map csvRow cards).

Definition csvContent (cards : list Flashcard) : jsstring :=
  csvHeader ++ csvRows cards.

(** What the export handler hands to the browser: the blob and the
    attributes of the link it clicks. *)
Record download : Type := {
  download_name : jsstring;
  blob_type : jsstring;
  blob_content : jsstring
}.

(** ** Prompt builder *)

(** The two template literals of [createPrompt], with the topic filled in. *)
Definition urlTemplate (topic : jsstring) : jsstring :=
  js "Generate a list of flashcards that summarize the key information from the content at this URL: "
  ++ [dquote] ++ topic ++ [dquote]
  ++ js ". Each flashcard should have a term and a concise definition. Format the output as a list of "
  ++ [dquote] ++ js "Term: Definition" ++ [dquote]
  ++ js " pairs, with each pair on a new line." ++ [nl]
  ++ js "    Example:" ++ [nl]
  ++ js "    Roman Republic: The period of ancient Roman civilization beginning with the overthrow of the Roman Kingdom."
  ++ [nl]
  ++ js "    Julius Caesar: A Roman general and statesman who played a critical role in the events that led to the demise of the Roman Republic.".

Definition topicTemplate (topic : jsstring) : jsstring :=
  js "Generate a list of flashcards for the following topic or text: "
  ++ [dquote] ++ topic ++ [dquote]
  ++ js ". Each flashcard should have a term and a concise definition. Format the output as a list of "
  ++ [dquote] ++ js "Term: Definition" ++ [dquote]
  ++ js " pairs, with each pair on a new line. Ensure terms and definitions are distinct and clearly separated by a single colon."
  ++ [nl]
  ++ js "  Example output for the topic " ++ [dquote] ++ js "Spanish Greetings" ++ [dquote] ++ js ":" ++ [nl]
  ++ js "  Hello: Hola" ++ [nl]
  ++ js "  Goodbye: Adi" ++ [195; 179]%N ++ js "s".

Section PromptBuilder.

(** The platform's URL parser is not part of the repository: all the
    code observes of [new URL(text)] is whether it returns or throws. *)
Variable url_parses : jsstring -> bool.

Definition new_URL (text : jsstring) : result unit :=
  if url_parses text then Ok tt else Throw (TypeError (js "Invalid URL")).

Definition isUrl (text : jsstring) : bool :=
  match new_URL text with
  | Ok _ => startsWith (js "http://") text || startsWith (js "https://") text
  | Throw _ => false
  end.

Definition createPrompt (topic : jsstring) : jsstring :=
  if isUrl topic then urlTemplate topic else topicTemplate topic.

End PromptBuilder.

(** The platform parser on the three topics the specification names: it
    accepts the well-formed address and rejects the two texts that have no
    scheme. *)
Definition sample_url_parses (text : jsstring) : bool :=
  if jsstring_eq_dec text (js "https://example.com/page") then true else false.

(** ** The page and its handlers *)

(** A rendered flip-card: its index attribute and the text of its faces. *)
Record cardDiv : Type := {
  dataset_index : nat;
  term_textContent : jsstring;
  definition_textContent : jsstring
}.

Record page : Type := {
  topicInput_value : jsstring;
  errorMessage_textContent : jsstring;
  flashcardsContainer : list cardDiv;
  currentFlashcards : list Flashcard;
  generateButton_disabled : bool;
  exportCsvButton_hidden : bool
}.

Definition set_errorMessage (m : jsstring) (s : page) : page :=
  {| topicInput_value := topicInput_value s;
     errorMessage_textContent := m;
     flashcardsContainer := flashcardsContainer s;
     currentFlashcards := currentFlashcards s;
     generateButton_disabled := generateButton_disabled s;
     exportCsvButton_hidden := exportCsvButton_hidden s |}.

Definition set_flashcardsContainer (c : list cardDiv) (s : page) : page :=
  {| topicInput_value := topicInput_value s;
     errorMessage_textContent := errorMessage_textContent s;
     flashcardsContainer := c;
     currentFlashcards := currentFlashcards s;
     generateButton_disabled := generateButton_disabled s;
     exportCsvButton_hidden := exportCsvButton_hidden s |}.

Definition set_currentFlashcards (l : list Flashcard) (s : page) : page :=
  {| topicInput_value := topicInput_value s;
     errorMessage_textContent := errorMessage_textContent s;
     flashcardsContainer := flashcardsContainer s;
     currentFlashcards := l;
     generateButton_disabled := generateButton_disabled s;
     exportCsvButton_hidden := exportCsvButton_hidden s |}.

Definition set_generateButton_disabled (b : bool) (s : page) : page :=
  {| topicInput_value := topicInput_value s;
     errorMessage_textContent := errorMessage_textContent s;
     flashcardsContainer := flashcardsContainer s;
     currentFlashcards := currentFlashcards s;
     generateButton_disabled := b;
     exportCsvButton_hidden := exportCsvButton_hidden s |}.

Definition set_exportCsvButton_hidden (b : bool) (s : page) : page :=
  {| topicInput_value := topicInput_value s;
     errorMessage_textContent := errorMessage_textContent s;
     flashcardsContainer := flashcardsContainer s;
     currentFlashcards := currentFlashcards s;
     generateButton_disabled := generateButton_disabled s;
     exportCsvButton_hidden := b |}.

(** The click handler of the export button: nothing is exported while the
    set is empty. *)
Definition exportCsv_click (s : page) : option download :=
  if (List.length (currentFlashcards s) =? 0)%nat then None
  else Some {| download_name := js "flashcards.csv";
               blob_type := js "text/csv;charset=utf-8;";
               blob_content := csvContent (currentFlashcards s) |}.

(** The messages the generate handler and [displayFlashcards] report. *)
Definition msg_enter_topic : jsstring :=
  js "Please enter a topic, URL, or import a file.".
Definition msg_generating : jsstring := js "Generating flashcards...".
Definition msg_no_valid : jsstring :=
  js "No valid flashcards could be generated from the response. Please check the format.".
Definition msg_failed : jsstring :=
  js "Failed to generate flashcards or received an empty response. Please try again.".
Definition msg_unknown : jsstring := js "An unknown error occurred".
Definition msg_error (detailedError : jsstring) : jsstring :=
  js "An error occurred: " ++ detailedError.

(** The cards [flashcards.forEach] appends, numbered from [index]. *)
Fixpoint render (index : nat) (flashcards : list Flashcard) : list cardDiv :=
  match flashcards with
  | [] => []
  | flashcard :: rest =>
      {| dataset_index := index;
         term_textContent := term flashcard;
         definition_textContent := definition flashcard |}
      :: render (S index) rest
  end.

Definition displayFlashcards (flashcards : list Flashcard) (s : page) : page :=
  let s := set_flashcardsContainer [] s in
  let s := set_currentFlashcards [] s in
  let s := set_exportCsvButton_hidden true s in
  if (0 <? List.length flashcards)%nat then
    let s := set_errorMessage [] s in
    let s := set_currentFlashcards flashcards s in
    let s := set_exportCsvButton_hidden false s in
    set_flashcardsContainer (render 0 flashcards) s
  else set_errorMessage msg_no_valid s.

(** [(error as Error)?.message || 'An unknown error occurred'] *)
Definition detailedError (e : exn) : jsstring :=
  let message :=
    match e with
    | TypeError m => Some m
    | ApiError m => m
    end in
  match message with
  | Some m => if truthy m then m else msg_unknown
  | None => msg_unknown
  end.

Section GenerateHandler.

Variable url_parses : jsstring -> bool.

(** The generation client, an external collaborator: given the model
    name and the prompt it resolves to a response whose text may be
    absent, or it rejects. *)
Variable generateContent : jsstring -> jsstring -> result (option jsstring).

(** The body of the [try] block: nothing is written to the page before
    the last statement of either branch. *)
Definition generate_try (topic : jsstring) (s : page) : result page :=
  let prompt := createPrompt url_parses topic in
  result_text <- generateContent (js "gemini-2.5-flash") prompt ;;
  let responseText :=
    match result_text with
    | Some text => text
    | None => []
    end in
  if truthy responseText then
    flashcards <- parseFlashcards responseText ;;
    Ok (displayFlashcards flashcards s)
  else Ok (set_errorMessage msg_failed s).

Definition generate_click (s : page) : page :=
  let topic := trim (topicInput_value s) in
  if negb (truthy topic) then
    set_flashcardsContainer [] (set_errorMessage msg_enter_topic s)
  else
    let s := set_errorMessage msg_generating s in
    let s := set_flashcardsContainer [] s in
    let s := set_generateButton_disabled true s in
    let s := set_exportCsvButton_hidden true s in
    let s := set_currentFlashcards [] s in
    let s :=
      match generate_try topic s with
      | Ok s' => s'
      | Throw error =>
          set_flashcardsContainer []
            (set_errorMessage (msg_error (detailedError error)) s)
      end in
    set_generateButton_disabled false s.

End GenerateHandler.

(** ** The specification's wording of the parser and of the CSV format *)

Module Spec.

(** Cutting a text at every occurrence of a separator, left to right:
    [acc] holds, reversed, the part being read. *)
Fixpoint cut (sep : code_unit) (acc s : jsstring) : list jsstring :=
  match s with
  | [] => [rev acc]
  | c :: s' =>
      if (c =? sep)%N then rev acc :: cut sep [] s'
      else cut sep (c :: acc) s'
  end.

Definition lines (raw : jsstring) : list jsstring := cut nl [] raw.

(** Steps 2 to 5 of the algorithm for one line. *)
Definition record_of_line (line : jsstring) : list Flashcard :=
  match cut colon [] line with
  | first :: ((_ :: _) as remaining) =>
      match trim first with
      | [] => []
      | _ :: _ =>
          match trim (join [colon] remaining) with
          | [] => []
          | d => [{| term := trim first; definition := d |}]
          end
      end
  | _ => []
  end.

Definition parseFlashcards (raw : jsstring) : list Flashcard :=
  flat_map record_of_line (lines raw).

(** A flashcard is well formed when both attributes are non-empty after
    trimming. *)
Definition well_formed (c : Flashcard) : Prop :=
  trim (term c) <> [] /\ trim (definition c) <> [].

(** Standard CSV quoting of one field. *)
Definition needs_quotes (field : jsstring) : Prop :=
  In comma field \/ In dquote field \/ In nl field.

Definition needs_quotes_dec (field : jsstring) :
  {needs_quotes field} + {~ needs_quotes field}.
Proof.
  unfold needs_quotes.
  destruct (in_dec N.eq_dec comma field); [left; tauto|].
  destruct (in_dec N.eq_dec dquote field); [left; tauto|].
  destruct (in_dec N.eq_dec nl field); [left; tauto|].
  right; tauto.
Defined.

Definition doubled (c : code_unit) : jsstring :=
  if N.eq_dec c dquote then [dquote; dquote] else [c].

Definition csv_field (field : jsstring) : jsstring :=
  if needs_quotes_dec field
  then dquote :: flat_map doubled field ++ [dquote]
  else field.

Definition csv_row (c : Flashcard) : jsstring :=
  csv_field (term c) ++ comma :: csv_field (definition c).

(** The header line, then one row per flashcard, all joined by a line
    feed. *)
Definition csv (cards : list Flashcard) : jsstring :=
  join [nl] (js "Term,Definition" :: map csv_row cards).

End Spec.

(** ** Theme switcher *)

(** What the theme code reads and writes: the [data-theme] attribute of
    the document element, the [theme] item of the local storage, and
    whether the system prefers a dark colour scheme.  The storage item is
    written by this script only. *)
Record theme_state : Type := {
  data_theme : option jsstring;
  localStorage_theme : option jsstring;
  prefersDark_matches : bool
}.

Definition dark : jsstring := js "dark".
Definition light : jsstring := js "light".

Definition applyTheme (theme : jsstring) (st : theme_state) : theme_state :=
  {| data_theme := Some theme;
     localStorage_theme := Some theme;
     prefersDark_matches := prefersDark_matches st |}.

(** The statements run when the script loads. *)
Definition theme_load (st : theme_state) : theme_state :=
  let system := if prefersDark_matches st then dark else light in
  match localStorage_theme st with
  | Some currentTheme =>
      if truthy currentTheme then applyTheme currentTheme st
      else applyTheme system st
  | None => applyTheme system st
  end.

(** The click handler of the theme toggle. *)
Definition themeToggle_click (st : theme_state) : theme_state :=
  let newTheme :=
    match data_theme st with
    | Some t => if jsstring_eq_dec t dark then light else dark
    | None => dark
    end in
  applyTheme newTheme st.

(** The listener for a change of the system colour scheme; [matches] is
    the new preference. *)
Definition prefersDark_change (matches : bool) (st : theme_state) : theme_state :=
  let st := {| data_theme := data_theme st;
               localStorage_theme := localStorage_theme st;
               prefersDark_matches := matches |} in
  let unset :=
    match localStorage_theme st with
    | Some t => negb (truthy t)
    | None => true
    end in
  if unset then applyTheme (if matches then dark else light) st else st.

Inductive theme_event : Type :=
| ToggleClick
| SystemChange (matches : bool).

Definition theme_step (st : theme_state) (e : theme_event) : theme_state :=
  match e with
  | ToggleClick => themeToggle_click st
  | SystemChange matches => prefersDark_change matches st
  end.

(** The page after loading and a sequence of events. *)
Definition theme_run (events : list theme_event) (st : theme_state) : theme_state :=
  fold_left theme_step events (theme_load st).

(** ** File import *)


Definition msg_file_loaded (name : jsstring) : jsstring :=
  js "File " ++ [dquote] ++ name ++ [dquote] ++ js " loaded.".


(** The callback [reader.onload] hands to [setTimeout]. *)
Definition loaded_timeout (name : jsstring) (s : page) : page :=
  if jsstring_eq_dec (errorMessage_textContent s) (msg_file_loaded name)
  then set_errorMessage [] s
  else s.

(** [reader.onerror]; the message of [reader.error] may be missing, and a
    missing value prints as [undefined] in the template. *)
Definition reader_onerror (message : option jsstring) (s : page) : page :=
  let shown :=
    match message with
    | Some m => m
    | None => js "undefined"
    end in
  set_errorMessage (js "Error reading file: " ++ shown) s.

(** ** Flipping a card *)

(** What the listeners of one card change: whether its class list has
    [flipped], and its [aria-pressed] attribute. *)
Record card_face : Type := {
  class_flipped : bool;
  aria_pressed : jsstring
}.

(** The card as [displayFlashcards] creates it. *)
Definition face_created : card_face :=
  {| class_flipped := false; aria_pressed := js "false" |}.

Definition bool_toString (b : bool) : jsstring :=
  if b then js "true" else js "false".

Definition flipCard (c : card_face) : card_face :=
  let isFlipped := negb (class_flipped c) in
  {| class_flipped := isFlipped; aria_pressed := bool_toString isFlipped |}.

Definition card_keydown (key : jsstring) (c : card_face) : card_face :=
  if jsstring_eq_dec key (js "Enter") then flipCard c
  else if jsstring_eq_dec key (js " ") then flipCard c
  else c.

Inductive card_event : Type :=
| CardClick
| CardKeydown (key : jsstring).

Definition card_step (c : card_face) (e : card_event) : card_face :=
  match e with
  | CardClick => flipCard c
  | CardKeydown key => card_keydown key c
  end.

(** Whether an event turns the card over. *)
Definition flips (e : card_event) : bool :=
  match e with
  | CardClick => true
  | CardKeydown key =>
      if jsstring_eq_dec key (js "Enter") then true
      else if jsstring_eq_dec key (js " ") then true else false
  end.

(** ** Reading an exported field back *)

Module Reader.

(** The rest of a quoted field, after its opening quote: up to the first
    double quote that is not followed by another one; [acc] holds,
    reversed, what was read. *)
Fixpoint read_quoted (acc s : jsstring) : jsstring * jsstring :=
  match s with
  | [] => (rev acc, [])
  | c :: s' =>
      if (c =? dquote)%N then
        match s' with
        | d :: s'' =>
            if (d =? dquote)%N then read_quoted (dquote :: acc) s''
            else (rev acc, s')
        | [] => (rev acc, [])
        end
      else read_quoted (c :: acc) s'
  end.

(** An unquoted field: up to the next comma or line feed. *)
Fixpoint read_plain (s : jsstring) : jsstring * jsstring :=
  match s with
  | [] => ([], [])
  | c :: s' =>
      if ((c =? comma) || (c =? nl))%N then ([], s)
      else let (f, r) := read_plain s' in (c :: f, r)
  end.

(** One field and what follows it. *)
Definition read_field (s : jsstring) : jsstring * jsstring :=
  match s with
  | c :: s' => if (c =? dquote)%N then read_quoted [] s' else read_plain s
  | [] => ([], [])
  end.

(** Where a field may end: at the end of the text, a comma or a line
    feed. *)
Definition field_end (r : jsstring) : Prop :=
  match r with
  | [] => True
  | c :: _ => c = comma \/ c = nl
  end.

End Reader.

(** The line the prompt asks the generator for: term, colon, space,
    definition. *)
Definition card_line (c : Flashcard) : jsstring :=
  term c ++ [colon; 32%N] ++ definition c.

(** A flashcard that reads back from its line: both fields are trimmed and
    non-empty, neither has a line feed and the term has no colon. *)
Definition printable (c : Flashcard) : Prop :=
  trim (term c) = term c /\ term c <> [] /\
  trim (definition c) = definition c /\ definition c <> [] /\
  ~ In colon (term c) /\ ~ In nl (term c) /\ ~ In nl (definition c).

(** A text with every line feed preceded by a carriage return. *)
Fixpoint crlf (raw : jsstring) : jsstring :=
  match raw with
  | [] => []
  | c :: raw' =>
      if (c =? nl)%N then 13%N :: nl :: crlf raw' else c :: crlf raw'
  end.

(** * Properties *)

(** Two texts whose first code units differ are different. *)
Ltac by_head H :=
  apply (f_equal (hd 0%N)) in H; lazy in H; discriminate H.

(** ** Splitting, joining and trimming *)

Lemma split_cons (sep : code_unit) (s : jsstring) :
  exists p ps, split sep s = p :: ps.
Proof.
  destruct s as [|c s]; simpl; [now eauto|].
  destruct (c =? sep)%N; [now eauto|].
  destruct (split sep s); eauto.
Qed.

Lemma split_app (sep : code_unit) (a b : jsstring) :
  split sep (a ++ sep :: b) = split sep a ++ split sep b.
Proof.
  induction a as [|c a IH]; simpl.
  - now rewrite N.eqb_refl.
  - destruct (c =? sep)%N; [now rewrite IH|].
    rewrite IH.
    destruct (split_cons sep a) as (p & ps & ->).
    reflexivity.
Qed.

Lemma split_head_no_sep (sep : code_unit) (s p : jsstring) (ps : list jsstring) :
  split sep s = p :: ps -> ~ In sep p.
Proof.
  revert p ps.
  induction s as [|c s IH]; simpl; intros p ps E.
  - injection E as <- _. exact (fun H => H).
  - destruct (N.eqb_spec c sep) as [_|Hne].
    + injection E as <- _. exact (fun H => H).
    + destruct (split sep s) as [|q qs] eqn:Es; injection E as <- _.
      * intros [H|[]]; congruence.
      * intros [H|H]; [congruence|].
        exact (IH q qs eq_refl H).
Qed.

Lemma cut_split (sep : code_unit) (s acc : jsstring) :
  Spec.cut sep acc s =
  match split sep s with
  | p :: ps => (rev acc ++ p) :: ps
  | [] => [rev acc]
  end.
Proof.
  revert acc.
  induction s as [|c s IH]; intros acc; simpl.
  - now rewrite app_nil_r.
  - destruct (c =? sep)%N.
    + now rewrite app_nil_r, IH; destruct (split_cons sep s) as (p & ps & ->).
    + rewrite IH.
      destruct (split_cons sep s) as (p & ps & ->).
      simpl. now rewrite <- app_assoc.
Qed.

Lemma cut_nil_split (sep : code_unit) (s : jsstring) :
  Spec.cut sep [] s = split sep s.
Proof.
  rewrite cut_split.
  now destruct (split_cons sep s) as (p & ps & ->).
Qed.

Lemma trimStart_incl (s : jsstring) (c : code_unit) :
  In c (trimStart s) -> In c s.
Proof.
  induction s as [|a s IH]; simpl; [tauto|].
  destruct (is_white_space a); [tauto|].
  exact (fun H => H).
Qed.

Lemma trim_incl (s : jsstring) (c : code_unit) : In c (trim s) -> In c s.
Proof.
  unfold trim, trimEnd.
  intros H.
  apply trimStart_incl, in_rev, trimStart_incl, in_rev.
  exact H.
Qed.

Lemma trimStart_head (s : jsstring) :
  match trimStart s with
  | [] => True
  | c :: _ => is_white_space c = false
  end.
Proof.
  induction s as [|a s IH]; simpl; [exact I|].
  destruct (is_white_space a) eqn:E; [exact IH|exact E].
Qed.

Lemma trimStart_snoc (s : jsstring) (c : code_unit) :
  is_white_space c = false -> trimStart (s ++ [c]) = trimStart s ++ [c].
Proof.
  intros Hc.
  induction s as [|a s IH]; simpl.
  - now rewrite Hc.
  - destruct (is_white_space a); [exact IH|reflexivity].
Qed.

Lemma trimEnd_cons (s : jsstring) (c : code_unit) :
  is_white_space c = false -> trimEnd (c :: s) = c :: trimEnd s.
Proof.
  intros Hc. unfold trimEnd. simpl.
  rewrite trimStart_snoc by exact Hc.
  rewrite rev_app_distr.
  reflexivity.
Qed.

Lemma trimStart_fixed (s : jsstring) :
  match s with
  | [] => True
  | c :: _ => is_white_space c = false
  end -> trimStart s = s.
Proof.
  destruct s as [|c s]; simpl; [reflexivity|].
  now intros ->.
Qed.

Lemma trimEnd_idem (s : jsstring) : trimEnd (trimEnd s) = trimEnd s.
Proof.
  unfold trimEnd.
  rewrite rev_involutive.
  f_equal.
  apply trimStart_fixed, trimStart_head.
Qed.

Lemma trim_idem (s : jsstring) : trim (trim s) = trim s.
Proof.
  unfold trim.
  pose proof (trimStart_head s) as H.
  destruct (trimStart s) as [|c t].
  - reflexivity.
  - rewrite trimEnd_cons by exact H.
    simpl. rewrite H.
    rewrite <- trimEnd_cons by exact H.
    apply trimEnd_idem.
Qed.

(** ** The parser never throws and reads the lines one by one *)

Lemma mapM_total (A B : Type) (f : A -> result B) (g : A -> B) (l : list A) :
  (forall a, f a = Ok (g a)) -> mapM f l = Ok (map g l).
Proof.
  intros Hf.
  induction l as [|a l IH]; simpl; [reflexivity|].
  now rewrite Hf, IH.
Qed.

Lemma record_of_line_cases (line : jsstring) :
  Spec.record_of_line line = [] \/
  exists first remaining,
    split colon line = first :: remaining /\
    remaining <> [] /\
    trim first <> [] /\
    trim (join [colon] remaining) <> [] /\
    Spec.record_of_line line =
      [{| term := trim first; definition := trim (join [colon] remaining) |}].
Proof.
  unfold Spec.record_of_line.
  rewrite cut_nil_split.
  destruct (split colon line) as [|first [|second more]]; [now left..|].
  destruct (trim first) as [|t ts] eqn:Et; [now left|].
  destruct (trim (join [colon] (second :: more))) as [|d ds] eqn:Ed; [now left|].
  right. exists first, (second :: more).
  rewrite Et, Ed.
  repeat split; discriminate.
Qed.

Lemma parseLine_refines (line : jsstring) :
  parseLine line = Ok (hd_error (Spec.record_of_line line)).
Proof.
  unfold parseLine, Spec.record_of_line.
  rewrite cut_nil_split.
  destruct (split colon line) as [|first [|second more]]; [reflexivity..|].
  cbn [List.length Nat.leb nth_error method_trim bind slice skipn].
  destruct (trim first) as [|t ts]; [reflexivity|].
  cbn [truthy bind].
  destruct (trim (join [colon] (second :: more))); reflexivity.
Qed.

Lemma record_of_line_hd (line : jsstring) :
  Spec.record_of_line line =
  match hd_error (Spec.record_of_line line) with
  | Some c => [c]
  | None => []
  end.
Proof.
  destruct (record_of_line_cases line) as [->|(f & r & _ & _ & _ & _ & ->)];
    reflexivity.
Qed.

Lemma filter_non_null_hd (A B : Type) (F : A -> list B) (l : list A) :
  (forall a, F a = match hd_error (F a) with Some c => [c] | None => [] end) ->
  filter_non_null (map (fun a => hd_error (F a)) l) = flat_map F l.
Proof.
  intros HF.
  induction l as [|a l IH]; simpl; [reflexivity|].
  rewrite (HF a) at 2.
  destruct (hd_error (F a)); simpl; now rewrite IH.
Qed.

Lemma parseFlashcards_flat_map (raw : jsstring) :
  parseFlashcards raw = Ok (flat_map Spec.record_of_line (split nl raw)).
Proof.
  unfold parseFlashcards.
  rewrite (mapM_total parseLine
             (fun line => hd_error (Spec.record_of_line line))
             (split nl raw) parseLine_refines).
  cbn [bind].
  now rewrite (filter_non_null_hd Spec.record_of_line (split nl raw) record_of_line_hd).
Qed.

(** C1: for every response text the parser returns exactly the list the
    specification's algorithm describes: the text is cut into lines at
    every line feed and each line at every colon; a line with at least two
    parts whose first part is non-empty once trimmed gives the record of
    that trimmed first part and of the remaining parts rejoined with a
    colon and trimmed, unless that definition is empty; other lines give
    nothing. *)
Theorem parser_refines_spec (raw : jsstring) :
  parseFlashcards raw = Ok (Spec.parseFlashcards raw).
Proof.
  unfold Spec.parseFlashcards, Spec.lines.
  rewrite cut_nil_split.
  apply parseFlashcards_flat_map.
Qed.

(** C4: the single line [Term: part1: part2] gives exactly one record,
    with term [Term] and definition [part1: part2]: the colon after the
    first one stays in the definition. *)
Theorem parser_keeps_later_colons :
  parseFlashcards (js "Term: part1: part2") =
  Ok [{| term := js "Term"; definition := js "part1: part2" |}].
Proof. vm_compute. reflexivity. Qed.

(** The parser on the remaining sample inputs of the specification. *)
Example parse_empty : parseFlashcards [] = Ok [].
Proof. reflexivity. Qed.

Example parse_two_lines :
  parseFlashcards (js "A: B" ++ [nl] ++ js "C: D") =
  Ok [{| term := js "A"; definition := js "B" |};
      {| term := js "C"; definition := js "D" |}].
Proof. vm_compute. reflexivity. Qed.

Example parse_no_colon : parseFlashcards (js "NoColonHere") = Ok [].
Proof. vm_compute. reflexivity. Qed.

Example parse_empty_definition : parseFlashcards (js "Empty:") = Ok [].
Proof. vm_compute. reflexivity. Qed.

Example parse_spaced :
  parseFlashcards (js "  Spaced  :  value  ") =
  Ok [{| term := js "Spaced"; definition := js "value" |}].
Proof. vm_compute. reflexivity. Qed.

(** C5: the records come out in the order of the lines they come from and
    none is merged with an equal one: the parser reads every line on its
    own, the records of a text followed by a line feed and a second text
    are those of the first text followed by those of the second, and a
    text repeated after a line feed gives its records twice. *)
Theorem parser_preserves_line_order (raw1 raw2 : jsstring) :
  exists per_line1 cards1 cards2,
    mapM parseLine (split nl raw1) = Ok per_line1 /\
    List.length per_line1 = List.length (split nl raw1) /\
    cards1 = filter_non_null per_line1 /\
    parseFlashcards raw1 = Ok cards1 /\
    parseFlashcards raw2 = Ok cards2 /\
    parseFlashcards (raw1 ++ nl :: raw2) = Ok (cards1 ++ cards2) /\
    parseFlashcards (raw1 ++ nl :: raw1) = Ok (cards1 ++ cards1).
Proof.
  exists (map (fun line => hd_error (Spec.record_of_line line)) (split nl raw1)),
         (flat_map Spec.record_of_line (split nl raw1)),
         (flat_map Spec.record_of_line (split nl raw2)).
  repeat split.
  - apply mapM_total, parseLine_refines.
  - apply length_map.
  - symmetry. apply filter_non_null_hd, record_of_line_hd.
  - apply parseFlashcards_flat_map.
  - apply parseFlashcards_flat_map.
  - now rewrite parseFlashcards_flat_map, split_app, flat_map_app.
  - now rewrite parseFlashcards_flat_map, split_app, flat_map_app.
Qed.

(** C6: on every response text, whatever its lines look like, the parser
    returns a list and does not throw, and each record of the list is well
    formed: its term and its definition are non-empty once trimmed. *)
Theorem parser_total_well_formed (raw : jsstring) :
  exists cards,
    parseFlashcards raw = Ok cards /\ Forall Spec.well_formed cards.
Proof.
  exists (flat_map Spec.record_of_line (split nl raw)).
  split; [apply parseFlashcards_flat_map|].
  apply Forall_flat_map, Forall_forall.
  intros line _.
  destruct (record_of_line_cases line)
    as [->|(first & remaining & _ & _ & Ht & Hd & ->)]; [constructor|].
  constructor; [|constructor].
  unfold Spec.well_formed; cbn [term definition].
  now rewrite !trim_idem.
Qed.

(** C9: the term of every record the parser returns contains no colon: it
    is the trimmed text before the first colon of one of the lines. *)
Theorem parser_term_has_no_colon (raw : jsstring) :
  exists cards,
    parseFlashcards raw = Ok cards /\
    Forall (fun c =>
              ~ In colon (term c) /\
              exists line,
                In line (split nl raw) /\
                term c = trim (hd [] (split colon line))) cards.
Proof.
  exists (flat_map Spec.record_of_line (split nl raw)).
  split; [apply parseFlashcards_flat_map|].
  apply Forall_flat_map, Forall_forall.
  intros line Hline.
  destruct (record_of_line_cases line)
    as [->|(first & remaining & Es & _ & _ & _ & ->)]; [constructor|].
  constructor; [|constructor].
  cbn [term]. split.
  - intros Hin.
    exact (split_head_no_sep _ _ Es (trim_incl _ _ Hin)).
  - exists line. now rewrite Es.
Qed.

(** ** CSV export *)

Lemma test_needs_quotes (field : jsstring) :
  test_quote_comma_newline field = true <-> Spec.needs_quotes field.
Proof.
  unfold test_quote_comma_newline, Spec.needs_quotes.
  rewrite existsb_exists.
  split.
  - intros (c & Hin & Hc).
    apply orb_true_iff in Hc as [Hc|Hc]; [apply orb_true_iff in Hc as [Hc|Hc]|];
      apply N.eqb_eq in Hc; subst c; tauto.
  - intros [H|[H|H]]; eexists; (split; [exact H|]); reflexivity.
Qed.

Lemma replace_dquotes_doubled (field : jsstring) :
  replace_dquotes field = flat_map Spec.doubled field.
Proof.
  induction field as [|c field IH]; simpl; [reflexivity|].
  unfold Spec.doubled at 1.
  destruct (N.eqb_spec c dquote) as [->|Hne]; destruct (N.eq_dec _ dquote);
    try congruence; simpl; now rewrite IH.
Qed.

Lemma escapeCsvField_csv_field (field : jsstring) :
  escapeCsvField field = Spec.csv_field field.
Proof.
  unfold escapeCsvField, Spec.csv_field.
  pose proof (test_needs_quotes field) as H.
  destruct (Spec.needs_quotes_dec field) as [Hq|Hq].
  - apply H in Hq. rewrite Hq. simpl. now rewrite replace_dquotes_doubled.
  - destruct (test_quote_comma_newline field); [|reflexivity].
    exfalso. apply Hq, H. reflexivity.
Qed.

Lemma csvRow_csv_row (card : Flashcard) : csvRow card = Spec.csv_row card.
Proof.
  unfold csvRow, Spec.csv_row.
  now rewrite !escapeCsvField_csv_field.
Qed.

Lemma csvContent_csv (card : Flashcard) (cards : list Flashcard) :
  csvContent (card :: cards) = Spec.csv (card :: cards).
Proof.
  unfold csvContent, csvRows, csvHeader, Spec.csv.
  rewrite (map_ext csvRow Spec.csv_row csvRow_csv_row).
  cbn [map join]. now rewrite <- app_assoc.
Qed.

Lemma csv_field_end (field : jsstring) :
  Spec.csv_field field = [] \/
  exists y z, Spec.csv_field field = y ++ [z] /\ z <> nl.
Proof.
  unfold Spec.csv_field.
  destruct (Spec.needs_quotes_dec field) as [Hq|Hq].
  - right. exists (dquote :: flat_map Spec.doubled field), dquote.
    split; [reflexivity|discriminate].
  - revert Hq.
    induction field as [|z y _] using rev_ind; intros Hq; [now left|].
    right. exists y, z.
    split; [reflexivity|].
    intros ->. apply Hq.
    right; right. apply in_or_app. right; now left.
Qed.

Lemma csv_row_end (card : Flashcard) :
  exists y z, Spec.csv_row card = y ++ [z] /\ z <> nl.
Proof.
  unfold Spec.csv_row.
  destruct (csv_field_end (definition card)) as [->|(y & z & -> & Hz)].
  - exists (Spec.csv_field (term card)), comma.
    split; [reflexivity|discriminate].
  - exists (Spec.csv_field (term card) ++ comma :: y), z.
    split; [|exact Hz].
    now rewrite <- app_assoc.
Qed.

Lemma join_end (sep : jsstring) (parts : list jsstring) :
  (forall p, In p parts -> exists y z, p = y ++ [z] /\ z <> nl) ->
  parts <> [] ->
  exists y z, join sep parts = y ++ [z] /\ z <> nl.
Proof.
  induction parts as [|p [|q parts] IH]; intros Hall Hne; [congruence| |].
  - apply Hall. now left.
  - destruct IH as (y & z' & E & Hz).
    + intros r Hr. apply Hall. now right.
    + discriminate.
    + exists (p ++ sep ++ y), z'.
      split; [|exact Hz].
      change (join sep (p :: q :: parts)) with (p ++ sep ++ join sep (q :: parts)).
      now rewrite E, !app_assoc.
Qed.

Lemma csv_no_trailing_newline (cards : list Flashcard) (pre : jsstring) :
  Spec.csv cards <> pre ++ [nl].
Proof.
  unfold Spec.csv.
  destruct (@join_end [nl] (js "Term,Definition" :: map Spec.csv_row cards))
    as (y & z & E & Hz).
  - intros p [<-|Hp].
    + exists (js "Term,Definitio"), 110%N. split; [reflexivity|discriminate].
    + apply in_map_iff in Hp as (c & <- & _). apply csv_row_end.
  - discriminate.
  - rewrite E. intros H.
    apply app_inj_tail in H as [_ H]. exact (Hz H).
Qed.

(** C3: the export serializes the current set as the header line
    [Term,Definition] followed by one row per flashcard, in the order of
    the set, each row being the term, a comma and the definition; a field
    with a comma, a double quote or a line feed is wrapped in double
    quotes with its own double quotes doubled; the lines are joined by one
    line feed and nothing follows the last row.  While the set is empty
    the handler exports nothing. *)
Theorem export_csv_format (s : page) :
  exportCsv_click s =
    match currentFlashcards s with
    | [] => None
    | _ :: _ =>
        Some {| download_name := js "flashcards.csv";
                blob_type := js "text/csv;charset=utf-8;";
                blob_content := Spec.csv (currentFlashcards s) |}
    end
  /\ (forall pre, Spec.csv (currentFlashcards s) <> pre ++ [nl])
  /\ escapeCsvField (js "He said, " ++ [dquote] ++ js "hi" ++ [dquote]) =
     [dquote] ++ js "He said, " ++ [dquote; dquote] ++ js "hi"
     ++ [dquote; dquote] ++ [dquote].
Proof.
  split; [|split].
  - unfold exportCsv_click.
    destruct (currentFlashcards s) as [|card cards]; [reflexivity|].
    cbn [List.length Nat.eqb].
    now rewrite csvContent_csv.
  - apply csv_no_trailing_newline.
  - vm_compute. reflexivity.
Qed.

(** C10: [escapeCsvField] returns a field that has no comma, no double
    quote and no line feed as it is, so the row of a flashcard with two
    such fields is the term, a comma and the definition, without quotes. *)
Theorem escapeCsvField_plain_identity (field : jsstring) :
  ~ In comma field -> ~ In dquote field -> ~ In nl field ->
  escapeCsvField field = field /\
  (forall other,
      ~ In comma other -> ~ In dquote other -> ~ In nl other ->
      csvRow {| term := field; definition := other |} = field ++ [comma] ++ other /\
      csvContent [{| term := field; definition := other |}] =
        js "Term,Definition" ++ [nl] ++ field ++ [comma] ++ other).
Proof.
  assert (plain : forall f,
             ~ In comma f -> ~ In dquote f -> ~ In nl f -> escapeCsvField f = f).
  { intros f Hc Hq Hn.
    unfold escapeCsvField.
    destruct (test_quote_comma_newline f) eqn:E; [|reflexivity].
    apply test_needs_quotes in E.
    destruct E as [E|[E|E]]; contradiction. }
  intros Hc Hq Hn.
  split; [now apply plain|].
  intros other Hc' Hq' Hn'.
  unfold csvContent, csvRows, csvHeader, csvRow.
  cbn [map join term definition].
  rewrite !plain by assumption.
  split; [reflexivity|].
  now rewrite <- app_assoc.
Qed.

Lemma escapeCsvField_plain_identity_witness :
  escapeCsvField (js "Hola") = js "Hola" /\
  csvRow {| term := js "Hola"; definition := js "Hello" |} = js "Hola,Hello".
Proof.
  assert (Hola : forall c, In c [comma; dquote; nl] -> ~ In c (js "Hola"))
    by (vm_compute; intuition congruence).
  assert (Hello : forall c, In c [comma; dquote; nl] -> ~ In c (js "Hello"))
    by (vm_compute; intuition congruence).
  pose proof (@escapeCsvField_plain_identity (js "Hola")
                (Hola comma (or_introl eq_refl))
                (Hola dquote (or_intror (or_introl eq_refl)))
                (Hola nl (or_intror (or_intror (or_introl eq_refl)))))
    as [Hfield Hrow].
  split; [exact Hfield|].
  exact (proj1 (Hrow (js "Hello")
                  (Hello comma (or_introl eq_refl))
                  (Hello dquote (or_intror (or_introl eq_refl)))
                  (Hello nl (or_intror (or_intror (or_introl eq_refl)))))).
Defined.

(** ** Prompt builder *)

Lemma templates_differ (topic topic' : jsstring) :
  urlTemplate topic <> topicTemplate topic'.
Proof.
  intros H.
  apply (f_equal (fun t => nth_error t 30)) in H.
  lazy in H.
  discriminate H.
Qed.

Lemma isUrl_true (url_parses : jsstring -> bool) (text : jsstring) :
  isUrl url_parses text = true <->
  url_parses text = true /\
  (startsWith (js "http://") text = true \/
   startsWith (js "https://") text = true).
Proof.
  unfold isUrl, new_URL.
  destruct (url_parses text).
  - rewrite orb_true_iff. tauto.
  - split; [discriminate|]. intros [H _]. discriminate H.
Qed.

(** C2: [createPrompt] gives the URL template exactly when the platform
    parser accepts the topic as a URL and the topic starts with [http://]
    or [https://], and the topic template in every other case.  So
    [https://example.com/page], which the parser accepts, gets the URL
    template, and [Roman history] and [httpsomething] get the topic
    template whatever the parser says of them. *)
Theorem createPrompt_classification (url_parses : jsstring -> bool) (topic : jsstring) :
  let url_shaped :=
    url_parses topic = true /\
    (startsWith (js "http://") topic = true \/
     startsWith (js "https://") topic = true) in
  (createPrompt url_parses topic = urlTemplate topic <-> url_shaped) /\
  (createPrompt url_parses topic = topicTemplate topic <-> ~ url_shaped) /\
  (url_parses (js "https://example.com/page") = true ->
   createPrompt url_parses (js "https://example.com/page") =
     urlTemplate (js "https://example.com/page")) /\
  createPrompt url_parses (js "Roman history") = topicTemplate (js "Roman history") /\
  createPrompt url_parses (js "httpsomething") = topicTemplate (js "httpsomething").
Proof.
  assert (classify : forall t,
             createPrompt url_parses t =
             if isUrl url_parses t then urlTemplate t else topicTemplate t)
    by reflexivity.
  cbv zeta.
  rewrite <- (isUrl_true url_parses topic).
  repeat split.
  - rewrite classify. destruct (isUrl url_parses topic); [reflexivity|].
    intros H. symmetry in H. now apply templates_differ in H.
  - intros H. rewrite classify, H. reflexivity.
  - rewrite classify. destruct (isUrl url_parses topic); [|discriminate].
    intros H. now apply templates_differ in H.
  - intros H. rewrite classify.
    destruct (isUrl url_parses topic); [now elim H|reflexivity].
  - intros H. rewrite classify.
    replace (isUrl url_parses (js "https://example.com/page")) with true;
      [reflexivity|].
    symmetry. apply isUrl_true. split; [exact H|]. right. reflexivity.
  - rewrite classify. unfold isUrl.
    destruct (new_URL url_parses (js "Roman history")); reflexivity.
  - rewrite classify. unfold isUrl.
    destruct (new_URL url_parses (js "httpsomething")); reflexivity.
Qed.

Lemma createPrompt_classification_witness :
  sample_url_parses (js "https://example.com/page") = true /\
  createPrompt sample_url_parses (js "https://example.com/page") =
    urlTemplate (js "https://example.com/page").
Proof.
  assert (H : sample_url_parses (js "https://example.com/page") = true)
    by (vm_compute; reflexivity).
  split; [exact H|].
  exact (proj1 (proj2 (proj2
           (@createPrompt_classification sample_url_parses [])))
           H).
Defined.

(** ** The generate handler *)

(** The page a click leaves behind, case by case. *)
Lemma generate_click_cases
      (url_parses : jsstring -> bool)
      (generateContent : jsstring -> jsstring -> result (option jsstring))
      (s : page) :
  generate_click url_parses generateContent s =
  let topic := trim (topicInput_value s) in
  let shown m container cards hidden :=
    {| topicInput_value := topicInput_value s;
       errorMessage_textContent := m;
       flashcardsContainer := container;
       currentFlashcards := cards;
       generateButton_disabled := false;
       exportCsvButton_hidden := hidden |} in
  match topic with
  | [] => set_flashcardsContainer [] (set_errorMessage msg_enter_topic s)
  | _ :: _ =>
      match generateContent (js "gemini-2.5-flash") (createPrompt url_parses topic) with
      | Throw e => shown (msg_error (detailedError e)) [] [] true
      | Ok None | Ok (Some []) => shown msg_failed [] [] true
      | Ok (Some ((_ :: _) as raw)) =>
          match flat_map Spec.record_of_line (split nl raw) with
          | [] => shown msg_no_valid [] [] true
          | (_ :: _) as cards => shown [] (render 0 cards) cards false
          end
      end
  end.
Proof.
  unfold generate_click, generate_try.
  destruct (trim (topicInput_value s)) as [|t ts]; [reflexivity|].
  cbn [truthy negb].
  destruct (generateContent _ _) as [[[|c raw]|]|e]; try reflexivity.
  cbn [bind truthy].
  rewrite parseFlashcards_flat_map. cbn [bind].
  destruct (flat_map _ _); reflexivity.
Qed.

Lemma message_heads (d : jsstring) :
  hd 0%N msg_enter_topic = 80%N /\ hd 0%N msg_failed = 70%N /\
  hd 0%N msg_no_valid = 78%N /\ hd 0%N (msg_error d) = 65%N.
Proof. repeat split. Qed.

(** C8: an empty or absent response and a response without a valid line
    are told apart.  After a click the message is the failed-to-generate
    one exactly when a topic was given and the client resolved without
    text or with the empty text, and the page is then the one prepared
    before the call with that message, whatever the parser would have
    made of anything; the message is the no-valid-flashcards one exactly
    when a topic was given and the client resolved with a non-empty text
    from which the parser returns no record; and the two messages are
    different. *)
Theorem empty_response_is_not_zero_records
        (url_parses : jsstring -> bool)
        (generateContent : jsstring -> jsstring -> result (option jsstring))
        (s : page) :
  let topic := trim (topicInput_value s) in
  let response :=
    generateContent (js "gemini-2.5-flash") (createPrompt url_parses topic) in
  let s' := generate_click url_parses generateContent s in
  (errorMessage_textContent s' = msg_failed <->
   topic <> [] /\ (response = Ok None \/ response = Ok (Some []))) /\
  (errorMessage_textContent s' = msg_no_valid <->
   topic <> [] /\
   exists raw,
     raw <> [] /\ response = Ok (Some raw) /\ parseFlashcards raw = Ok []) /\
  msg_failed <> msg_no_valid /\
  (topic <> [] /\ (response = Ok None \/ response = Ok (Some [])) ->
   s' = {| topicInput_value := topicInput_value s;
           errorMessage_textContent := msg_failed;
           flashcardsContainer := [];
           currentFlashcards := [];
           generateButton_disabled := false;
           exportCsvButton_hidden := true |}).
Proof.
  cbv zeta.
  rewrite generate_click_cases. cbv zeta.
  assert (flat : forall raw,
             parseFlashcards raw = Ok [] <->
             flat_map Spec.record_of_line (split nl raw) = []).
  { intros raw. rewrite parseFlashcards_flat_map.
    split; [intros H; now injection H|now intros ->]. }
  destruct (trim (topicInput_value s)) as [|t ts].
  - cbn [errorMessage_textContent set_flashcardsContainer set_errorMessage].
    repeat match goal with |- _ /\ _ => split | |- _ <-> _ => split end;
      first [ solve [intros H; by_head H] | solve [intros [H _]; now elim H] ].
  - destruct (generateContent _ _) as [[[|c raw]|]|e].
    + cbn [errorMessage_textContent].
      repeat match goal with |- _ /\ _ => split | |- _ <-> _ => split end.
      all: try solve [intros H; by_head H].
      * intros _. split; [discriminate|]. now right.
      * reflexivity.
      * intros (_ & raw & Hraw & E & _). injection E as <-. now elim Hraw.
      * reflexivity.
    + destruct (flat_map Spec.record_of_line (split nl (c :: raw))) as [|card cards] eqn:Ecards;
        cbn [errorMessage_textContent];
        repeat match goal with |- _ /\ _ => split | |- _ <-> _ => split end.
      all: try solve [intros H; by_head H].
      all: try solve [intros [_ [E|E]]; discriminate E].
      * intros _. split; [discriminate|].
        exists (c :: raw). split; [discriminate|]. split; [reflexivity|].
        now apply flat.
      * reflexivity.
      * intros (_ & raw' & _ & E & Hp). injection E as <-.
        apply flat in Hp. congruence.
    + cbn [errorMessage_textContent].
      repeat match goal with |- _ /\ _ => split | |- _ <-> _ => split end.
      all: try solve [intros H; by_head H].
      * intros _. split; [discriminate|]. now left.
      * reflexivity.
      * intros (_ & raw & _ & E & _). discriminate E.
      * reflexivity.
    + cbn [errorMessage_textContent].
      repeat match goal with |- _ /\ _ => split | |- _ <-> _ => split end.
      all: try solve [intros H; by_head H].
      all: try solve [intros [_ [E|E]]; discriminate E].
      intros (_ & raw & _ & E & _). discriminate E.
Qed.

(** C7: the parser is a function of the response text alone.  Every text
    has one list of records, and two clicks whose clients resolve with the
    same text end with that same list in the store, the same cards on the
    page and the same message, whatever the two pages held before,
    whatever the two topics were and whatever else the clients and the URL
    parser do. *)
Theorem parser_depends_on_text_only
        (raw : jsstring)
        (url_parses1 url_parses2 : jsstring -> bool)
        (generateContent1 generateContent2 :
           jsstring -> jsstring -> result (option jsstring))
        (s1 s2 : page) :
  truthy (trim (topicInput_value s1)) = true ->
  truthy (trim (topicInput_value s2)) = true ->
  generateContent1 (js "gemini-2.5-flash")
    (createPrompt url_parses1 (trim (topicInput_value s1))) = Ok (Some raw) ->
  generateContent2 (js "gemini-2.5-flash")
    (createPrompt url_parses2 (trim (topicInput_value s2))) = Ok (Some raw) ->
  let s1' := generate_click url_parses1 generateContent1 s1 in
  let s2' := generate_click url_parses2 generateContent2 s2 in
  exists cards,
    parseFlashcards raw = Ok cards /\
    currentFlashcards s1' = cards /\
    currentFlashcards s2' = cards /\
    flashcardsContainer s1' = flashcardsContainer s2' /\
    errorMessage_textContent s1' = errorMessage_textContent s2' /\
    exportCsvButton_hidden s1' = exportCsvButton_hidden s2'.
Proof.
  intros Ht1 Ht2 E1 E2. cbv zeta.
  exists (flat_map Spec.record_of_line (split nl raw)).
  split; [apply parseFlashcards_flat_map|].
  rewrite !generate_click_cases. cbv zeta.
  destruct (trim (topicInput_value s1)) as [|t1 ts1]; [discriminate Ht1|].
  destruct (trim (topicInput_value s2)) as [|t2 ts2]; [discriminate Ht2|].
  rewrite E1, E2.
  destruct raw as [|r raw]; [now repeat split|].
  destruct (flat_map Spec.record_of_line (split nl (r :: raw)));
    now repeat split.
Qed.

Lemma parser_depends_on_text_only_witness :
  let reply : jsstring -> jsstring -> result (option jsstring) :=
    fun _ _ => Ok (Some (js "Hello: Hola")) in
  let blank topic :=
    {| topicInput_value := topic;
       errorMessage_textContent := [];
       flashcardsContainer := [];
       currentFlashcards := [];
       generateButton_disabled := false;
       exportCsvButton_hidden := true |} in
  let used topic :=
    {| topicInput_value := topic;
       errorMessage_textContent := msg_no_valid;
       flashcardsContainer := render 0 [{| term := js "A"; definition := js "B" |}];
       currentFlashcards := [{| term := js "A"; definition := js "B" |}];
       generateButton_disabled := false;
       exportCsvButton_hidden := false |} in
  currentFlashcards
    (generate_click sample_url_parses reply (blank (js "Spanish Greetings"))) =
  currentFlashcards
    (generate_click (fun _ => true) reply (used (js " https://example.com/page "))).
Proof.
  cbv zeta.
  destruct (@parser_depends_on_text_only
              (js "Hello: Hola") sample_url_parses (fun _ => true)
              (fun _ _ => Ok (Some (js "Hello: Hola")))
              (fun _ _ => Ok (Some (js "Hello: Hola")))
              {| topicInput_value := js "Spanish Greetings";
                 errorMessage_textContent := [];
                 flashcardsContainer := [];
                 currentFlashcards := [];
                 generateButton_disabled := false;
                 exportCsvButton_hidden := true |}
              {| topicInput_value := js " https://example.com/page ";
                 errorMessage_textContent := msg_no_valid;
                 flashcardsContainer :=
                   render 0 [{| term := js "A"; definition := js "B" |}];
                 currentFlashcards := [{| term := js "A"; definition := js "B" |}];
                 generateButton_disabled := false;
                 exportCsvButton_hidden := false |}
              eq_refl eq_refl eq_refl eq_refl)
    as (cards & _ & H1 & H2 & _).
  exact (eq_trans H1 (eq_sym H2)).
Defined.

(** * Further properties of the code *)

(** ** More on splitting, joining and trimming *)

Lemma split_no_sep (sep : code_unit) (s : jsstring) :
  ~ In sep s -> split sep s = [s].
Proof.
  induction s as [|c s IH]; simpl; intros H; [reflexivity|].
  destruct (N.eqb_spec c sep) as [E|_]; [elim H; now left|].
  rewrite IH; [reflexivity|]. intros Hin. apply H. now right.
Qed.

Lemma split_first (sep : code_unit) (a b : jsstring) :
  ~ In sep a -> split sep (a ++ sep :: b) = a :: split sep b.
Proof.
  intros H. now rewrite split_app, split_no_sep.
Qed.

Lemma first_occurrence (sep : code_unit) (s : jsstring) :
  In sep s -> exists a b, s = a ++ sep :: b /\ ~ In sep a.
Proof.
  induction s as [|c s IH]; simpl; [tauto|].
  destruct (N.eq_dec c sep) as [->|Hne].
  - intros _. exists [], s. split; [reflexivity|]. exact (fun H => H).
  - intros [E|Hin]; [congruence|].
    destruct (IH Hin) as (a & b & -> & Ha).
    exists (c :: a), b. split; [reflexivity|].
    intros [E|Hin']; [congruence|exact (Ha Hin')].
Qed.

Lemma join_split (sep : code_unit) (s : jsstring) :
  join [sep] (split sep s) = s.
Proof.
  induction s as [|c s IH]; [reflexivity|].
  cbn [split].
  destruct (split_cons sep s) as (p & ps & E).
  rewrite E in *.
  destruct (N.eqb_spec c sep) as [->|_].
  - change (join [sep] ([] :: p :: ps))
      with ([] ++ [sep] ++ join [sep] (p :: ps)).
    now rewrite IH.
  - rewrite <- IH. now destruct ps.
Qed.

Lemma split_parts_no_sep (sep : code_unit) (s : jsstring) :
  Forall (fun p => ~ In sep p) (split sep s).
Proof.
  induction s as [|c s IH]; cbn [split].
  - constructor; [exact (fun H => H)|constructor].
  - destruct (N.eqb_spec c sep) as [->|Hne].
    + constructor; [exact (fun H => H)|exact IH].
    + destruct (split sep s) as [|p ps].
      * constructor; [|constructor]. intros [E|[]]. congruence.
      * inversion IH as [|? ? Hp Hps]; subst.
        constructor; [|exact Hps].
        intros [E|Hin]; [congruence|exact (Hp Hin)].
Qed.

Lemma split_join (sep : code_unit) (ls : list jsstring) :
  Forall (fun l => ~ In sep l) ls -> ls <> [] ->
  split sep (join [sep] ls) = ls.
Proof.
  induction ls as [|l [|l' ls] IH]; intros Hall Hne; [congruence| |].
  - inversion Hall; subst. now apply split_no_sep.
  - inversion Hall as [|? ? Hl Hrest]; subst.
    change (join [sep] (l :: l' :: ls)) with (l ++ sep :: join [sep] (l' :: ls)).
    rewrite split_first by exact Hl.
    rewrite IH; [reflexivity|exact Hrest|discriminate].
Qed.

Lemma trimStart_snoc_space (s : jsstring) (w : code_unit) :
  is_white_space w = true ->
  trimStart (s ++ [w]) =
  match trimStart s with
  | [] => []
  | t => t ++ [w]
  end.
Proof.
  intros Hw.
  induction s as [|c s IH]; simpl.
  - now rewrite Hw.
  - destruct (is_white_space c); [exact IH|reflexivity].
Qed.

Lemma trim_cons_space (s : jsstring) (w : code_unit) :
  is_white_space w = true -> trim (w :: s) = trim s.
Proof.
  intros Hw. unfold trim. simpl. now rewrite Hw.
Qed.

Lemma trim_snoc_space (s : jsstring) (w : code_unit) :
  is_white_space w = true -> trim (s ++ [w]) = trim s.
Proof.
  intros Hw. unfold trim.
  rewrite trimStart_snoc_space by exact Hw.
  destruct (trimStart s) as [|c t]; [reflexivity|].
  unfold trimEnd.
  rewrite rev_app_distr. simpl. now rewrite Hw.
Qed.

(** ** More on the parser *)

Lemma parseLine_no_colon (line : jsstring) :
  ~ In colon line -> parseLine line = Ok None.
Proof.
  intros H. unfold parseLine.
  now rewrite split_no_sep.
Qed.

Lemma parseLine_first_colon (before after : jsstring) :
  ~ In colon before ->
  parseLine (before ++ colon :: after) =
  Ok (if truthy (trim before) && truthy (trim after)
      then Some {| term := trim before; definition := trim after |}
      else None).
Proof.
  intros H. unfold parseLine.
  rewrite split_first by exact H.
  pose proof (join_split colon after) as J.
  destruct (split_cons colon after) as (p & ps & E).
  rewrite E in *.
  cbn [List.length Nat.leb nth_error method_trim bind slice skipn].
  rewrite J.
  destruct (trim before); [reflexivity|].
  cbn [truthy bind andb].
  destruct (trim after); reflexivity.
Qed.

Lemma parseLine_cons_space (w : code_unit) (line : jsstring) :
  is_white_space w = true -> parseLine (w :: line) = parseLine line.
Proof.
  intros Hw.
  assert (Hne : w <> colon) by (intros ->; discriminate Hw).
  destruct (in_dec N.eq_dec colon line) as [Hin|Hno].
  - destruct (first_occurrence _ _ Hin) as (a & b & -> & Ha).
    change (w :: a ++ colon :: b) with ((w :: a) ++ colon :: b).
    rewrite !parseLine_first_colon; [|exact Ha|].
    + now rewrite trim_cons_space.
    + intros [E|H]; [congruence|exact (Ha H)].
  - rewrite !parseLine_no_colon; [reflexivity|exact Hno|].
    intros [E|H]; [congruence|exact (Hno H)].
Qed.

Lemma parseLine_snoc_space (w : code_unit) (line : jsstring) :
  is_white_space w = true -> parseLine (line ++ [w]) = parseLine line.
Proof.
  intros Hw.
  assert (Hne : w <> colon) by (intros ->; discriminate Hw).
  destruct (in_dec N.eq_dec colon line) as [Hin|Hno].
  - destruct (first_occurrence _ _ Hin) as (a & b & -> & Ha).
    rewrite <- app_assoc. cbn [app].
    rewrite !parseLine_first_colon by exact Ha.
    now rewrite trim_snoc_space.
  - rewrite !parseLine_no_colon; [reflexivity|exact Hno|].
    intros H. apply in_app_or in H as [H|[E|[]]]; [exact (Hno H)|congruence].
Qed.

Lemma record_of_line_snoc_space (w : code_unit) (line : jsstring) :
  is_white_space w = true ->
  Spec.record_of_line (line ++ [w]) = Spec.record_of_line line.
Proof.
  intros Hw.
  pose proof (@parseLine_snoc_space w line Hw) as H.
  rewrite !parseLine_refines in H.
  injection H as H.
  rewrite (record_of_line_hd (line ++ [w])), (record_of_line_hd line).
  now rewrite H.
Qed.

Lemma split_crlf (raw : jsstring) :
  split nl (crlf raw) =
  map (fun l => l ++ [13%N]) (removelast (split nl raw))
  ++ [last (split nl raw) []].
Proof.
  induction raw as [|c raw IH]; [reflexivity|].
  cbn [crlf split].
  destruct (split_cons nl raw) as (p & ps & E).
  rewrite E in *.
  destruct (N.eqb_spec c nl) as [->|Hne].
  - cbn [split N.eqb Pos.eqb nl]. rewrite IH. reflexivity.
  - cbn [split].
    destruct (N.eqb_spec c nl) as [|_]; [contradiction|].
    rewrite IH.
    destruct ps as [|q qs]; reflexivity.
Qed.

(** X1: a line is cut at its first colon.  A line without a colon gives
    no record; a line with one gives the record of the trimmed text before
    its first colon and the trimmed text after it, when both are
    non-empty, and no record otherwise. *)
Theorem parseLine_cuts_at_first_colon (line : jsstring) :
  (~ In colon line -> parseLine line = Ok None) /\
  (forall before after,
      line = before ++ colon :: after -> ~ In colon before ->
      parseLine line =
      Ok (if truthy (trim before) && truthy (trim after)
          then Some {| term := trim before; definition := trim after |}
          else None)).
Proof.
  split.
  - apply parseLine_no_colon.
  - intros before after -> H. now apply parseLine_first_colon.
Qed.

(** X2: white space around a line does not count: a line with any run of
    white space before it and after it gives what the line alone gives. *)
Theorem parseLine_ignores_outer_space (pre post line : jsstring) :
  forallb is_white_space pre = true ->
  forallb is_white_space post = true ->
  parseLine (pre ++ line ++ post) = parseLine line.
Proof.
  intros Hpre Hpost.
  induction pre as [|w pre IH]; cbn [app].
  - clear Hpre. revert Hpost.
    induction post as [|w post IH] using rev_ind; intros Hpost.
    + now rewrite app_nil_r.
    + rewrite forallb_app in Hpost. cbn in Hpost.
      apply andb_true_iff in Hpost as [Hp Hw].
      rewrite app_assoc, parseLine_snoc_space.
      * now apply IH.
      * now rewrite andb_true_r in Hw.
  - cbn in Hpre. apply andb_true_iff in Hpre as [Hw Hp].
    rewrite parseLine_cons_space by exact Hw.
    now apply IH.
Qed.

Lemma parseLine_ignores_outer_space_witness :
  parseLine (js "   Hello: Hola" ++ [13%N]) = parseLine (js "Hello: Hola").
Proof.
  exact (@parseLine_ignores_outer_space (js "   ") [13%N] (js "Hello: Hola")
           eq_refl eq_refl).
Defined.

(** X3: line ends written as carriage return and line feed give the same
    records as line feeds alone. *)
Theorem parseFlashcards_crlf (raw : jsstring) :
  parseFlashcards (crlf raw) = parseFlashcards raw.
Proof.
  rewrite !parseFlashcards_flat_map, split_crlf.
  f_equal.
  rewrite (app_removelast_last (l := split nl raw) []) at 3.
  - rewrite !flat_map_app. f_equal.
    induction (removelast (split nl raw)) as [|l ls IH]; [reflexivity|].
    cbn [map flat_map]. now rewrite IH, record_of_line_snoc_space.
  - destruct (split_cons nl raw) as (p & ps & ->). discriminate.
Qed.

Lemma record_of_card_line (c : Flashcard) :
  printable c -> Spec.record_of_line (card_line c) = [c].
Proof.
  intros (Ht & Htne & Hd & Hdne & Hcolon & _ & _).
  pose proof (@parseLine_first_colon (term c) (32%N :: definition c) Hcolon) as H.
  rewrite trim_cons_space, Ht, Hd in H by reflexivity.
  change (term c ++ colon :: 32%N :: definition c) with (card_line c) in H.
  rewrite parseLine_refines in H.
  rewrite record_of_line_hd.
  injection H as H. rewrite H.
  destruct c as [t d]; cbn [term definition] in *.
  destruct t; [congruence|]. destruct d; [congruence|]. reflexivity.
Qed.

Lemma card_line_no_newline (c : Flashcard) :
  printable c -> ~ In nl (card_line c).
Proof.
  intros (_ & _ & _ & _ & _ & Ht & Hd) H.
  unfold card_line in H.
  apply in_app_or in H as [H|H]; [exact (Ht H)|].
  apply in_app_or in H as [H|H]; [|exact (Hd H)].
  destruct H as [E|[E|[]]]; discriminate E.
Qed.

(** X4: the parser reads back what was written in the format the prompt
    asks for.  Flashcards whose fields are trimmed, non-empty and free of
    line feeds, with no colon in the term, written one per line as term,
    colon, space, definition (a definition may have colons), are returned
    unchanged and in order. *)
Theorem parseFlashcards_reads_card_lines (cards : list Flashcard) :
  Forall printable cards ->
  parseFlashcards (join [nl] (map card_line cards)) = Ok cards.
Proof.
  intros Hall.
  rewrite parseFlashcards_flat_map.
  destruct cards as [|c cards]; [reflexivity|].
  rewrite split_join.
  - f_equal.
    induction Hall as [|c' cards' Hc _ IH]; [reflexivity|].
    cbn [map flat_map].
    now rewrite record_of_card_line, IH.
  - apply Forall_map.
    eapply Forall_impl; [|exact Hall].
    intros c'. apply card_line_no_newline.
  - discriminate.
Qed.

Lemma parseFlashcards_reads_card_lines_witness :
  parseFlashcards
    (join [nl]
       (map card_line
          [{| term := js "Hello"; definition := js "Hola" |};
           {| term := js "Time"; definition := js "12:30: noon" |}])) =
  Ok [{| term := js "Hello"; definition := js "Hola" |};
      {| term := js "Time"; definition := js "12:30: noon" |}].
Proof.
  apply (@parseFlashcards_reads_card_lines
           [{| term := js "Hello"; definition := js "Hola" |};
            {| term := js "Time"; definition := js "12:30: noon" |}]).
  repeat constructor; vm_compute; try discriminate; intuition discriminate.
Defined.

Lemma record_of_line_fields (line : jsstring) (c : Flashcard) (x : code_unit) :
  In c (Spec.record_of_line line) ->
  In x (term c) \/ In x (definition c) -> In x line.
Proof.
  intros Hc Hx.
  destruct (record_of_line_cases line)
    as [E|(first & remaining & Es & _ & _ & _ & E)]; rewrite E in Hc;
    [destruct Hc|].
  destruct Hc as [<-|[]]. cbn [term definition] in Hx.
  rewrite <- (join_split colon line), Es.
  destruct remaining as [|r rs].
  - destruct Hx as [Hx|Hx]; apply trim_incl in Hx; [exact Hx|destruct Hx].
  - change (join [colon] (first :: r :: rs))
      with (first ++ [colon] ++ join [colon] (r :: rs)).
    destruct Hx as [Hx|Hx]; apply trim_incl in Hx.
    + apply in_or_app. now left.
    + apply in_or_app. right. apply in_or_app. now right.
Qed.

(** X5: the records of a response are single-line and no more than its
    lines: no term and no definition holds a line feed, and the list is
    not longer than the number of lines of the response. *)
Theorem parseFlashcards_fields_single_line (raw : jsstring) :
  exists cards,
    parseFlashcards raw = Ok cards /\
    Forall (fun c => ~ In nl (term c) /\ ~ In nl (definition c)) cards /\
    List.length cards <= List.length (split nl raw).
Proof.
  exists (flat_map Spec.record_of_line (split nl raw)).
  split; [apply parseFlashcards_flat_map|].
  split.
  - apply Forall_flat_map, Forall_forall.
    intros line Hline.
    apply Forall_forall. intros c Hc.
    pose proof (split_parts_no_sep nl raw) as Hno.
    rewrite Forall_forall in Hno.
    split; intros H; apply (Hno line Hline);
      apply (record_of_line_fields line c nl Hc); tauto.
  - induction (split nl raw) as [|line ls IH]; [apply le_n|].
    cbn [flat_map List.length]. rewrite length_app.
    destruct (record_of_line_cases line)
      as [->|(f & r & _ & _ & _ & _ & ->)]; cbn [List.length].
    + now apply le_S.
    + now apply le_n_S.
Qed.

(** ** More on the CSV export *)

Lemma read_quoted_escape (field acc rest : jsstring) :
  Reader.field_end rest ->
  Reader.read_quoted acc (replace_dquotes field ++ dquote :: rest) =
  (rev acc ++ field, rest).
Proof.
  intros Hend. revert acc.
  induction field as [|c field IH]; intros acc.
  - cbn [replace_dquotes app Reader.read_quoted]. rewrite N.eqb_refl.
    rewrite app_nil_r.
    destruct rest as [|d rest]; [reflexivity|].
    destruct Hend as [->| ->]; reflexivity.
  - cbn [replace_dquotes].
    destruct (N.eqb_spec c dquote) as [->|Hne].
    + cbn [app Reader.read_quoted]. rewrite !N.eqb_refl.
      rewrite IH. cbn [rev]. now rewrite <- app_assoc.
    + cbn [app Reader.read_quoted].
      destruct (N.eqb_spec c dquote) as [|_]; [contradiction|].
      rewrite IH. cbn [rev]. now rewrite <- app_assoc.
Qed.

Lemma read_plain_field (field rest : jsstring) :
  test_quote_comma_newline field = false ->
  Reader.field_end rest ->
  Reader.read_plain (field ++ rest) = (field, rest).
Proof.
  intros Hplain Hend.
  induction field as [|c field IH]; cbn [app].
  - destruct rest as [|d rest]; [reflexivity|].
    cbn [Reader.read_plain].
    destruct Hend as [->| ->]; reflexivity.
  - cbn [test_quote_comma_newline existsb] in Hplain.
    apply orb_false_iff in Hplain as [Hc Hplain].
    apply orb_false_iff in Hc as [Hc Hnl].
    apply orb_false_iff in Hc as [_ Hcomma].
    cbn [Reader.read_plain]. rewrite Hcomma, Hnl. cbn [orb].
    now rewrite (IH Hplain).
Qed.

Lemma read_field_escape (field rest : jsstring) :
  Reader.field_end rest ->
  Reader.read_field (escapeCsvField field ++ rest) = (field, rest).
Proof.
  intros Hend. unfold escapeCsvField.
  destruct (test_quote_comma_newline field) eqn:Etest.
  - cbn [app Reader.read_field]. rewrite N.eqb_refl.
    rewrite <- app_assoc. cbn [app].
    now rewrite read_quoted_escape.
  - destruct field as [|c field].
    + cbn [app]. destruct rest as [|d rest]; [reflexivity|].
      cbn [Reader.read_field Reader.read_plain].
      destruct Hend as [->| ->]; reflexivity.
    + pose proof Etest as Hplain.
      cbn [test_quote_comma_newline existsb] in Etest.
      apply orb_false_iff in Etest as [Hc _].
      apply orb_false_iff in Hc as [Hc _].
      apply orb_false_iff in Hc as [Hq _].
      change (Reader.read_field ((c :: field) ++ rest))
        with (if (c =? dquote)%N
              then Reader.read_quoted [] (field ++ rest)
              else Reader.read_plain ((c :: field) ++ rest)).
      rewrite Hq. now apply read_plain_field.
Qed.

(** What follows the first row in [csvRows]. *)
Lemma csvRows_cons (c : Flashcard) (cards : list Flashcard) :
  csvRows (c :: cards) =
  csvRow c ++ match cards with
              | [] => []
              | _ :: _ => nl :: csvRows cards
              end.
Proof.
  unfold csvRows.
  destruct cards; cbn [map join]; [now rewrite app_nil_r|reflexivity].
Qed.

Lemma read_row (c : Flashcard) (rest : jsstring) :
  Reader.field_end rest ->
  Reader.read_field (csvRow c ++ rest) =
    (term c, comma :: escapeCsvField (definition c) ++ rest) /\
  Reader.read_field (escapeCsvField (definition c) ++ rest) =
    (definition c, rest).
Proof.
  intros Hend. split; [|now apply read_field_escape].
  unfold csvRow. rewrite <- !app_assoc. cbn [app].
  apply read_field_escape. now left.
Qed.

Lemma csvRows_injective (cards1 cards2 : list Flashcard) :
  csvRows cards1 = csvRows cards2 -> cards1 = cards2.
Proof.
  revert cards2.
  induction cards1 as [|c1 cards1 IH]; intros [|c2 cards2] H.
  - reflexivity.
  - rewrite csvRows_cons in H. unfold csvRow in H.
    apply (f_equal (@List.length code_unit)) in H.
    rewrite !length_app in H. cbn [List.length csvRows map join] in H.
    rewrite Nat.add_succ_r in H. discriminate H.
  - rewrite csvRows_cons in H. unfold csvRow in H.
    apply (f_equal (@List.length code_unit)) in H.
    rewrite !length_app in H. cbn [List.length csvRows map join] in H.
    rewrite Nat.add_succ_r in H. discriminate H.
  - rewrite !csvRows_cons in H.
    set (t1 := match cards1 with [] => [] | _ :: _ => nl :: csvRows cards1 end) in *.
    set (t2 := match cards2 with [] => [] | _ :: _ => nl :: csvRows cards2 end) in *.
    assert (E1 : Reader.field_end t1) by (subst t1; destruct cards1; cbn; tauto).
    assert (E2 : Reader.field_end t2) by (subst t2; destruct cards2; cbn; tauto).
    destruct (@read_row c1 t1 E1) as [R1 S1].
    destruct (@read_row c2 t2 E2) as [R2 S2].
    rewrite H, R2 in R1.
    injection R1 as Hterm Hrest.
    rewrite Hrest, S1 in S2.
    injection S2 as Hdef Htail.
    assert (c1 = c2) as ->
        by (destruct c1, c2; cbn [term definition] in *; congruence).
    f_equal.
    subst t1 t2.
    destruct cards1 as [|a1 r1], cards2 as [|a2 r2]; try discriminate Htail.
    + reflexivity.
    + apply IH. now injection Htail.
Qed.

(** X6: an escaped field reads back.  A reader that takes a field opened
    by a double quote up to the first double quote not followed by
    another, a doubled one standing for one, and any other field up to the
    next comma or line feed, gets from what [escapeCsvField] wrote the
    field itself and leaves what follows, when what follows is the end of
    the text, a comma or a line feed; so it gets the term and then the
    definition from a row. *)
Theorem escapeCsvField_reads_back (field rest : jsstring) :
  Reader.field_end rest ->
  Reader.read_field (escapeCsvField field ++ rest) = (field, rest) /\
  (forall definition,
      Reader.read_field
        (csvRow {| term := field; definition := definition |} ++ rest) =
        (field, comma :: escapeCsvField definition ++ rest) /\
      Reader.read_field (escapeCsvField definition ++ rest) =
        (definition, rest)).
Proof.
  intros Hend.
  split; [now apply read_field_escape|].
  intros definition.
  exact (@read_row {| term := field; definition := definition |} rest Hend).
Qed.

Lemma escapeCsvField_reads_back_witness :
  Reader.read_field
    (escapeCsvField (js "He said, " ++ [dquote] ++ js "hi" ++ [dquote])
     ++ nl :: js "next") =
  (js "He said, " ++ [dquote] ++ js "hi" ++ [dquote], nl :: js "next").
Proof.
  exact (proj1 (@escapeCsvField_reads_back
                  (js "He said, " ++ [dquote] ++ js "hi" ++ [dquote])
                  (nl :: js "next")
                  (or_intror eq_refl))).
Defined.

(** X7: the export loses nothing: two sets of flashcards give the same
    CSV text only when they are the same set, with the same flashcards in
    the same order. *)
Theorem csvContent_injective (cards1 cards2 : list Flashcard) :
  csvContent cards1 = csvContent cards2 <-> cards1 = cards2.
Proof.
  split; [|now intros ->].
  unfold csvContent. intros H.
  apply app_inv_head in H.
  now apply csvRows_injective.
Qed.

Lemma replace_dquotes_incl (field : jsstring) (x : code_unit) :
  In x (replace_dquotes field) -> x = dquote \/ In x field.
Proof.
  induction field as [|c field IH]; cbn [replace_dquotes]; [tauto|].
  destruct (N.eqb_spec c dquote) as [->|_]; cbn [In]; intuition.
Qed.

Lemma csvRow_no_newline (c : Flashcard) :
  ~ In nl (term c) -> ~ In nl (definition c) -> ~ In nl (csvRow c).
Proof.
  assert (Hesc : forall f, ~ In nl f -> ~ In nl (escapeCsvField f)).
  { intros f Hf. unfold escapeCsvField.
    destruct (test_quote_comma_newline f); [|exact Hf].
    intros H. cbn [app] in H.
    destruct H as [E|H]; [discriminate E|].
    apply in_app_or in H as [H|[E|[]]]; [|discriminate E].
    apply replace_dquotes_incl in H as [E|H]; [discriminate E|exact (Hf H)]. }
  intros Ht Hd H. unfold csvRow in H.
  apply in_app_or in H as [H|H]; [exact (Hesc _ Ht H)|].
  apply in_app_or in H as [[E|[]]|H]; [discriminate E|exact (Hesc _ Hd H)].
Qed.

Lemma csvContent_lines (cards : list Flashcard) :
  Forall (fun c => ~ In nl (term c) /\ ~ In nl (definition c)) cards ->
  cards <> [] ->
  split nl (csvContent cards) = js "Term,Definition" :: map csvRow cards.
Proof.
  intros Hall Hne.
  replace (csvContent cards)
    with (join [nl] (js "Term,Definition" :: map csvRow cards)).
  - apply split_join; [|discriminate].
    constructor.
    + vm_compute. intuition discriminate.
    + apply Forall_map.
      eapply Forall_impl; [|exact Hall].
      intros c [Ht Hd]. now apply csvRow_no_newline.
  - unfold csvContent, csvRows, csvHeader.
    destruct cards as [|c cards]; [congruence|].
    cbn [map join]. now rewrite <- app_assoc.
Qed.

(** ** More on the generate handler *)

Lemma records_single_line (raw : jsstring) :
  Forall (fun c => ~ In nl (term c) /\ ~ In nl (definition c))
         (flat_map Spec.record_of_line (split nl raw)).
Proof.
  apply Forall_flat_map, Forall_forall.
  intros line Hline.
  apply Forall_forall. intros c Hc.
  pose proof (split_parts_no_sep nl raw) as Hno.
  rewrite Forall_forall in Hno.
  split; intros H; apply (Hno line Hline);
    apply (record_of_line_fields line c nl Hc); tauto.
Qed.

(** The page after a click with a topic: the store holds nothing, or the
    records of the response. *)
Lemma generate_click_with_topic
      (url_parses : jsstring -> bool)
      (generateContent : jsstring -> jsstring -> result (option jsstring))
      (s : page) :
  truthy (trim (topicInput_value s)) = true ->
  exists m cards,
    generate_click url_parses generateContent s =
      {| topicInput_value := topicInput_value s;
         errorMessage_textContent := m;
         flashcardsContainer := render 0 cards;
         currentFlashcards := cards;
         generateButton_disabled := false;
         exportCsvButton_hidden := match cards with [] => true | _ :: _ => false end |}
    /\ (m = [] <-> cards <> [])
    /\ (cards = [] \/
        exists raw, cards = flat_map Spec.record_of_line (split nl raw)).
Proof.
  intros Htopic.
  rewrite generate_click_cases. cbv zeta.
  destruct (trim (topicInput_value s)) as [|t ts]; [discriminate Htopic|].
  destruct (generateContent _ _) as [[[|c raw]|]|e].
  - exists msg_failed, []. repeat split; try tauto; try discriminate; try (now left).
  - destruct (flat_map Spec.record_of_line (split nl (c :: raw)))
      as [|card cards] eqn:E.
    + exists msg_no_valid, []. repeat split; try tauto; try discriminate; try (now left).
    + exists [], (card :: cards). repeat split; try discriminate.
      right. exists (c :: raw). now rewrite E.
  - exists msg_failed, []. repeat split; try tauto; try discriminate; try (now left).
  - exists (msg_error (detailedError e)), [].
    repeat split; try tauto; try discriminate; try (now left).
Qed.

(** X8: after a click with a topic the page shows what it stores: the
    cards on the page are those of the stored set, numbered from zero, the
    export button is hidden exactly when the set is empty, the message is
    empty exactly when the set is not, the generate button is enabled
    again, also when the client rejected, and the topic input is
    untouched. *)
Theorem generate_click_view_matches_store
        (url_parses : jsstring -> bool)
        (generateContent : jsstring -> jsstring -> result (option jsstring))
        (s : page) :
  truthy (trim (topicInput_value s)) = true ->
  let s' := generate_click url_parses generateContent s in
  flashcardsContainer s' = render 0 (currentFlashcards s') /\
  (exportCsvButton_hidden s' = true <-> currentFlashcards s' = []) /\
  (errorMessage_textContent s' = [] <-> currentFlashcards s' <> []) /\
  generateButton_disabled s' = false /\
  topicInput_value s' = topicInput_value s.
Proof.
  intros Htopic. cbv zeta.
  destruct (generate_click_with_topic url_parses generateContent s Htopic)
    as (m & cards & -> & Hm & _).
  cbn [flashcardsContainer currentFlashcards exportCsvButton_hidden
       errorMessage_textContent generateButton_disabled topicInput_value].
  repeat split; try exact (proj1 Hm); try exact (proj2 Hm).
  - destruct cards; [reflexivity|discriminate].
  - now intros ->.
Qed.

Lemma generate_click_view_matches_store_witness :
  let reply : jsstring -> jsstring -> result (option jsstring) :=
    fun _ _ => Throw (ApiError None) in
  let s := {| topicInput_value := js "Roman history";
              errorMessage_textContent := [];
              flashcardsContainer :=
                render 0 [{| term := js "A"; definition := js "B" |}];
              currentFlashcards := [{| term := js "A"; definition := js "B" |}];
              generateButton_disabled := false;
              exportCsvButton_hidden := false |} in
  generateButton_disabled (generate_click sample_url_parses reply s) = false.
Proof.
  cbv zeta.
  exact (proj1 (proj2 (proj2 (proj2
    (@generate_click_view_matches_store sample_url_parses
       (fun _ _ => Throw (ApiError None))
       {| topicInput_value := js "Roman history";
          errorMessage_textContent := [];
          flashcardsContainer :=
            render 0 [{| term := js "A"; definition := js "B" |}];
          currentFlashcards := [{| term := js "A"; definition := js "B" |}];
          generateButton_disabled := false;
          exportCsvButton_hidden := false |}
       eq_refl))))).
Defined.

(** X9: a click without a topic (empty or white space only) reports that
    and empties the card area, and nothing else: the client is not called,
    the stored set and the export button stay, so the export still gives
    the set that was stored. *)
Theorem generate_click_blank_topic
        (url_parses : jsstring -> bool)
        (generateContent : jsstring -> jsstring -> result (option jsstring))
        (s : page) :
  truthy (trim (topicInput_value s)) = false ->
  generate_click url_parses generateContent s =
    {| topicInput_value := topicInput_value s;
       errorMessage_textContent := msg_enter_topic;
       flashcardsContainer := [];
       currentFlashcards := currentFlashcards s;
       generateButton_disabled := generateButton_disabled s;
       exportCsvButton_hidden := exportCsvButton_hidden s |} /\
  exportCsv_click (generate_click url_parses generateContent s) =
    exportCsv_click s.
Proof.
  intros Htopic.
  unfold generate_click. rewrite Htopic. cbn [negb].
  split; reflexivity.
Qed.

Lemma generate_click_blank_topic_witness :
  let s := {| topicInput_value := js "   ";
              errorMessage_textContent := [];
              flashcardsContainer :=
                render 0 [{| term := js "A"; definition := js "B" |}];
              currentFlashcards := [{| term := js "A"; definition := js "B" |}];
              generateButton_disabled := false;
              exportCsvButton_hidden := false |} in
  exportCsv_click
    (generate_click sample_url_parses (fun _ _ => Ok (Some (js "C: D"))) s) =
  exportCsv_click s.
Proof.
  cbv zeta.
  exact (proj2
    (@generate_click_blank_topic sample_url_parses
       (fun _ _ => Ok (Some (js "C: D")))
       {| topicInput_value := js "   ";
          errorMessage_textContent := [];
          flashcardsContainer :=
            render 0 [{| term := js "A"; definition := js "B" |}];
          currentFlashcards := [{| term := js "A"; definition := js "B" |}];
          generateButton_disabled := false;
          exportCsvButton_hidden := false |}
       eq_refl)).
Defined.

(** X10: when the client rejects, the page reports the error's message
    after [An error occurred: ], or [An unknown error occurred] in its
    place when the error has no message or an empty one; the store and the
    card area are empty, the export button is hidden and the generate
    button is enabled again. *)
Theorem generate_click_rejected
        (url_parses : jsstring -> bool)
        (generateContent : jsstring -> jsstring -> result (option jsstring))
        (s : page) (message : option jsstring) :
  truthy (trim (topicInput_value s)) = true ->
  generateContent (js "gemini-2.5-flash")
    (createPrompt url_parses (trim (topicInput_value s))) =
    Throw (ApiError message) ->
  generate_click url_parses generateContent s =
    {| topicInput_value := topicInput_value s;
       errorMessage_textContent :=
         js "An error occurred: " ++
         match message with
         | Some ((_ :: _) as m) => m
         | Some [] | None => js "An unknown error occurred"
         end;
       flashcardsContainer := [];
       currentFlashcards := [];
       generateButton_disabled := false;
       exportCsvButton_hidden := true |}.
Proof.
  intros Htopic Hreject.
  rewrite generate_click_cases. cbv zeta.
  destruct (trim (topicInput_value s)) as [|t ts]; [discriminate Htopic|].
  rewrite Hreject.
  destruct message as [[|c m]|]; reflexivity.
Qed.

Lemma generate_click_rejected_witness :
  errorMessage_textContent
    (generate_click sample_url_parses
       (fun _ _ => Throw (ApiError (Some (js "quota exceeded"))))
       {| topicInput_value := js "Roman history";
          errorMessage_textContent := [];
          flashcardsContainer := [];
          currentFlashcards := [];
          generateButton_disabled := false;
          exportCsvButton_hidden := true |}) =
  js "An error occurred: quota exceeded".
Proof.
  exact (f_equal errorMessage_textContent
    (@generate_click_rejected sample_url_parses
       (fun _ _ => Throw (ApiError (Some (js "quota exceeded"))))
       {| topicInput_value := js "Roman history";
          errorMessage_textContent := [];
          flashcardsContainer := [];
          currentFlashcards := [];
          generateButton_disabled := false;
          exportCsvButton_hidden := true |}
       (Some (js "quota exceeded")) eq_refl eq_refl)).
Defined.

(** X11: a click with a topic replaces the page wholesale: what it leaves
    depends on the topic input and on the client only, not on the message,
    the cards, the stored set or the buttons of the page before. *)
Theorem generate_click_forgets_previous_page
        (url_parses : jsstring -> bool)
        (generateContent : jsstring -> jsstring -> result (option jsstring))
        (s1 s2 : page) :
  topicInput_value s1 = topicInput_value s2 ->
  truthy (trim (topicInput_value s1)) = true ->
  generate_click url_parses generateContent s1 =
  generate_click url_parses generateContent s2.
Proof.
  intros Hsame Htopic.
  rewrite !generate_click_cases. cbv zeta.
  rewrite <- Hsame.
  destruct (trim (topicInput_value s1)) as [|t ts]; [discriminate Htopic|].
  reflexivity.
Qed.

Lemma generate_click_forgets_previous_page_witness :
  generate_click sample_url_parses (fun _ _ => Ok (Some (js "C: D")))
    {| topicInput_value := js "letters";
       errorMessage_textContent := [];
       flashcardsContainer := render 0 [{| term := js "A"; definition := js "B" |}];
       currentFlashcards := [{| term := js "A"; definition := js "B" |}];
       generateButton_disabled := false;
       exportCsvButton_hidden := false |} =
  generate_click sample_url_parses (fun _ _ => Ok (Some (js "C: D")))
    {| topicInput_value := js "letters";
       errorMessage_textContent := msg_failed;
       flashcardsContainer := [];
       currentFlashcards := [];
       generateButton_disabled := true;
       exportCsvButton_hidden := true |}.
Proof.
  exact (@generate_click_forgets_previous_page sample_url_parses
           (fun _ _ => Ok (Some (js "C: D")))
           {| topicInput_value := js "letters";
              errorMessage_textContent := [];
              flashcardsContainer :=
                render 0 [{| term := js "A"; definition := js "B" |}];
              currentFlashcards := [{| term := js "A"; definition := js "B" |}];
              generateButton_disabled := false;
              exportCsvButton_hidden := false |}
           {| topicInput_value := js "letters";
              errorMessage_textContent := msg_failed;
              flashcardsContainer := [];
              currentFlashcards := [];
              generateButton_disabled := true;
              exportCsvButton_hidden := true |}
           eq_refl eq_refl).
Defined.

(** X12: what is exported after a click with a topic has one line per
    stored flashcard below the header: a field of a parsed record has no
    line feed, so no row runs over two lines. *)
Theorem export_after_generate_one_line_per_card
        (url_parses : jsstring -> bool)
        (generateContent : jsstring -> jsstring -> result (option jsstring))
        (s : page) (d : download) :
  truthy (trim (topicInput_value s)) = true ->
  let s' := generate_click url_parses generateContent s in
  exportCsv_click s' = Some d ->
  split nl (blob_content d) =
    js "Term,Definition" :: map csvRow (currentFlashcards s').
Proof.
  intros Htopic. cbv zeta.
  destruct (generate_click_with_topic url_parses generateContent s Htopic)
    as (m & cards & -> & _ & Hcards).
  unfold exportCsv_click. cbn [currentFlashcards].
  destruct cards as [|card cards]; [discriminate|].
  cbn [List.length Nat.eqb].
  intros Hd. injection Hd as <-. cbn [blob_content].
  apply csvContent_lines; [|discriminate].
  destruct Hcards as [E|(raw & ->)]; [discriminate E|].
  apply records_single_line.
Qed.

Lemma export_after_generate_one_line_per_card_witness :
  let s' :=
    generate_click sample_url_parses
      (fun _ _ => Ok (Some (js "Hello: Hola, amigo" ++ [nl] ++ js "Bye: Adios")))
      {| topicInput_value := js "Spanish Greetings";
         errorMessage_textContent := [];
         flashcardsContainer := [];
         currentFlashcards := [];
         generateButton_disabled := false;
         exportCsvButton_hidden := true |} in
  split nl (csvContent (currentFlashcards s')) =
    js "Term,Definition" :: map csvRow (currentFlashcards s').
Proof.
  cbv zeta.
  exact (@export_after_generate_one_line_per_card sample_url_parses
           (fun _ _ => Ok (Some (js "Hello: Hola, amigo" ++ [nl] ++ js "Bye: Adios")))
           {| topicInput_value := js "Spanish Greetings";
              errorMessage_textContent := [];
              flashcardsContainer := [];
              currentFlashcards := [];
              generateButton_disabled := false;
              exportCsvButton_hidden := true |}
           _ eq_refl eq_refl).
Defined.

(** ** The cards on the page *)

Lemma render_nth (flashcards : list Flashcard) (index k : nat) (card : Flashcard) :
  nth_error flashcards k = Some card ->
  nth_error (render index flashcards) k =
    Some {| dataset_index := index + k;
            term_textContent := term card;
            definition_textContent := definition card |}.
Proof.
  revert index k.
  induction flashcards as [|f rest IH]; intros index [|k] H;
    try discriminate H.
  - injection H as ->. cbn. now rewrite Nat.add_0_r.
  - cbn [render nth_error]. rewrite (IH (S index) k H).
    now rewrite Nat.add_succ_r.
Qed.

Lemma render_length (flashcards : list Flashcard) (index : nat) :
  List.length (render index flashcards) = List.length flashcards.
Proof.
  revert index.
  induction flashcards as [|f rest IH]; intros index; [reflexivity|].
  cbn. now rewrite IH.
Qed.

(** X13: [displayFlashcards] puts one card on the page per flashcard, in
    the order of the list: the card at position [k] carries the index [k]
    and the term and the definition of the [k]-th flashcard, whatever the
    page showed before; the list becomes the stored set. *)
Theorem displayFlashcards_cards_in_order (flashcards : list Flashcard) (s : page) :
  let s' := displayFlashcards flashcards s in
  List.length (flashcardsContainer s') = List.length flashcards /\
  currentFlashcards s' = flashcards /\
  forall k card,
    nth_error flashcards k = Some card ->
    nth_error (flashcardsContainer s') k =
      Some {| dataset_index := k;
              term_textContent := term card;
              definition_textContent := definition card |}.
Proof.
  cbv zeta. unfold displayFlashcards.
  destruct flashcards as [|f rest].
  - cbn. repeat split. intros [|k] card H; discriminate H.
  - cbn [List.length Nat.ltb Nat.leb flashcardsContainer currentFlashcards
         set_flashcardsContainer set_errorMessage set_currentFlashcards
         set_exportCsvButton_hidden].
    repeat split.
    + apply render_length.
    + intros k card H. now rewrite (render_nth (f :: rest) 0 k H).
Qed.

(** X14: however a card is clicked and whatever keys are pressed on it,
    its [aria-pressed] attribute says whether it is flipped, and it is
    flipped exactly when the clicks and the presses of Enter or of the
    space key are odd in number; every other key leaves it as it is. *)
Theorem card_flips_stay_in_step (events : list card_event) :
  let c := fold_left card_step events face_created in
  aria_pressed c = bool_toString (class_flipped c) /\
  class_flipped c = Nat.odd (List.length (filter flips events)).
Proof.
  cbv zeta.
  induction events as [|e events IH] using rev_ind; [now split|].
  rewrite fold_left_app, filter_app, length_app. cbn [fold_left filter].
  destruct IH as [IHa IHc].
  set (c := fold_left card_step events face_created) in *.
  assert (Hflip : forall c0 n,
             class_flipped c0 = Nat.odd n ->
             class_flipped (flipCard c0) = Nat.odd (n + 1)).
  { intros c0 n H. cbn [flipCard class_flipped]. rewrite H.
    rewrite Nat.add_1_r, Nat.odd_succ, <- Nat.negb_odd. reflexivity. }
  destruct e as [|key]; cbn [card_step flips].
  - split; [reflexivity|]. now apply Hflip.
  - unfold card_keydown.
    destruct (jsstring_eq_dec key (js "Enter")).
    + split; [reflexivity|]. now apply Hflip.
    + destruct (jsstring_eq_dec key (js " ")).
      * split; [reflexivity|]. now apply Hflip.
      * cbn [List.length]. rewrite Nat.add_0_r. now split.
Qed.

(** ** Theme switcher *)

Lemma theme_load_applied (st : theme_state) :
  exists t, t <> [] /\
    data_theme (theme_load st) = Some t /\
    localStorage_theme (theme_load st) = Some t.
Proof.
  unfold theme_load.
  destruct (localStorage_theme st) as [[|c t]|]; cbn [truthy].
  - destruct (prefersDark_matches st); eexists; repeat split; discriminate.
  - exists (c :: t). repeat split. discriminate.
  - destruct (prefersDark_matches st); eexists; repeat split; discriminate.
Qed.

Lemma theme_step_applied (st : theme_state) (e : theme_event) :
  (exists t, t <> [] /\ data_theme st = Some t /\ localStorage_theme st = Some t) ->
  (exists t, t <> [] /\
     data_theme (theme_step st e) = Some t /\
     localStorage_theme (theme_step st e) = Some t) /\
  (forall matches, e = SystemChange matches ->
     data_theme (theme_step st e) = data_theme st /\
     localStorage_theme (theme_step st e) = localStorage_theme st).
Proof.
  intros (t & Hne & Hd & Hs).
  destruct e as [|matches]; cbn [theme_step].
  - split; [|discriminate].
    unfold themeToggle_click. rewrite Hd.
    destruct (jsstring_eq_dec t dark); eexists; repeat split; discriminate.
  - unfold prefersDark_change. cbn [localStorage_theme]. rewrite Hs.
    destruct t as [|c t]; [congruence|]. cbn [truthy negb].
    split; [|now split].
    exists (c :: t). cbn. now repeat split.
Qed.

Lemma theme_run_applied (events : list theme_event) (st : theme_state) :
  exists t, t <> [] /\
    data_theme (theme_run events st) = Some t /\
    localStorage_theme (theme_run events st) = Some t.
Proof.
  unfold theme_run.
  induction events as [|e events IH] using rev_ind.
  - apply theme_load_applied.
  - rewrite fold_left_app. cbn [fold_left].
    now apply theme_step_applied.
Qed.

(** X15: from the moment the script has loaded, the [data-theme] attribute
    and the stored theme are the same, non-empty text, through any clicks
    on the toggle and any changes of the system colour scheme. *)
Theorem theme_attribute_matches_storage (events : list theme_event) (st : theme_state) :
  exists t,
    t <> [] /\
    data_theme (theme_run events st) = Some t /\
    localStorage_theme (theme_run events st) = Some t.
Proof. apply theme_run_applied. Qed.

(** X16: once the script has loaded, a change of the system colour scheme
    never changes the theme: loading stores a theme, and the listener
    acts only while none is stored.  The theme after any events is the one
    after the clicks on the toggle among them. *)
Theorem system_change_is_ignored (events : list theme_event) (st : theme_state) :
  let clicks :=
    filter (fun e => match e with ToggleClick => true | SystemChange _ => false end)
           events in
  data_theme (theme_run events st) = data_theme (theme_run clicks st) /\
  localStorage_theme (theme_run events st) =
    localStorage_theme (theme_run clicks st).
Proof.
  cbv zeta.
  induction events as [|e events IH] using rev_ind; [now split|].
  rewrite filter_app. cbn [filter].
  destruct e as [|matches].
  - unfold theme_run in *. rewrite !fold_left_app. cbn [fold_left theme_step].
    destruct IH as [IHd IHs].
    unfold themeToggle_click, applyTheme. cbn [data_theme localStorage_theme].
    rewrite IHd. now split.
  - rewrite app_nil_r.
    destruct (@theme_step_applied (theme_run events st) (SystemChange matches)
                (theme_run_applied events st)) as [_ H].
    destruct (H matches eq_refl) as [Hd Hs].
    unfold theme_run in *. rewrite fold_left_app. cbn [fold_left].
    rewrite Hd, Hs. exact IH.
Qed.

(** X17: a click on the toggle makes the theme dark or light: light when
    the attribute was [dark], dark in every other case; from then on every
    second click gives the same theme again. *)
Theorem themeToggle_alternates (st : theme_state) :
  let once := themeToggle_click st in
  let twice := themeToggle_click once in
  (data_theme st = Some dark -> data_theme once = Some light) /\
  (data_theme st <> Some dark -> data_theme once = Some dark) /\
  (data_theme once = Some dark /\ data_theme twice = Some light \/
   data_theme once = Some light /\ data_theme twice = Some dark) /\
  data_theme (themeToggle_click twice) = data_theme once /\
  localStorage_theme once = data_theme once.
Proof.
  cbv zeta.
  unfold themeToggle_click, applyTheme. cbn [data_theme localStorage_theme].
  destruct (data_theme st) as [t|].
  - destruct (jsstring_eq_dec t dark) as [->|Hne].
    + repeat split; try congruence. now right.
    + repeat split; try congruence. now left.
  - repeat split; try congruence. now left.
Qed.

(** ** File import *)



(** X19: the delayed clearing of a file's notice never removes what the
    generate handler or a failed read has reported since: after a click on
    generate, or after a read error, the timer leaves the page as it
    is. *)
Theorem loaded_timeout_keeps_later_messages
        (url_parses : jsstring -> bool)
        (generateContent : jsstring -> jsstring -> result (option jsstring))
        (name : jsstring) (message : option jsstring) (s : page) :
  loaded_timeout name (generate_click url_parses generateContent s) =
    generate_click url_parses generateContent s /\
  loaded_timeout name (reader_onerror message s) = reader_onerror message s.
Proof.
  assert (keep : forall p,
             nth_error (errorMessage_textContent p) 1 <> Some 105%N ->
             loaded_timeout name p = p).
  { intros p Hp. unfold loaded_timeout.
    destruct (jsstring_eq_dec _ _) as [E|_]; [|reflexivity].
    rewrite E in Hp. now elim Hp. }
  split; apply keep.
  - rewrite generate_click_cases. cbv zeta.
    destruct (trim (topicInput_value s)) as [|t ts]; [discriminate|].
    destruct (generateContent _ _) as [[[|c raw]|]|e]; try discriminate.
    destruct (flat_map _ _); discriminate.
  - discriminate.
Qed.

(** ** More on the prompt builder *)

(** X20: different topics never give the same prompt: the prompt holds
    the topic as it is, between the same fixed texts. *)
Theorem createPrompt_injective
        (url_parses : jsstring -> bool) (topic1 topic2 : jsstring) :
  createPrompt url_parses topic1 = createPrompt url_parses topic2 <->
  topic1 = topic2.
Proof.
  split; [|now intros ->].
  assert (Hurl : forall t1 t2, urlTemplate t1 = urlTemplate t2 -> t1 = t2).
  { unfold urlTemplate. intros t1 t2 H.
    apply app_inv_head in H. apply app_inv_head in H.
    now apply app_inv_tail in H. }
  assert (Htopic : forall t1 t2, topicTemplate t1 = topicTemplate t2 -> t1 = t2).
  { unfold topicTemplate. intros t1 t2 H.
    apply app_inv_head in H. apply app_inv_head in H.
    now apply app_inv_tail in H. }
  unfold createPrompt.
  destruct (isUrl url_parses topic1), (isUrl url_parses topic2); intros H.
  - now apply Hurl.
  - now apply templates_differ in H.
  - symmetry in H. now apply templates_differ in H.
  - now apply Htopic.
Qed.
